(** * The service container (DIContainer): registration, resolution, singleton cache

    A shallow embedding of [class DIContainer] of
    [src/container/DIContainer.js] and of the properties its specification
    states about registration, dependency resolution and the singleton
    life cycle. *)

From Stdlib Require Import List String ZArith Bool Arith Lia.
Import ListNotations.
Open Scope string_scope.
Open Scope list_scope.

(** ** JavaScript [Map] with string keys

    A [Map] keeps its entries in insertion order, and [keys()] shows that
    order, so the embedding is an association list: [set] on a key that is
    present replaces the value where it stands, [set] on a new key appends. *)

Module JsMap.

Section Defs.
Context {V : Type}.

Definition t : Type := list (string * V).

Definition empty : t := [].

Fixpoint get (m : t) (k : string) : option V :=
  match m with
  | [] => None
  | (k', v) :: m' => if String.eqb k' k then Some v else get m' k
  end.

Definition has (m : t) (k : string) : bool :=
  match get m k with
  | Some _ => true
  | None => false
  end.

Fixpoint set (m : t) (k : string) (v : V) : t :=
  match m with
  | [] => [(k, v)]
  | (k', v') :: m' =>
      if String.eqb k' k then (k', v) :: m' else (k', v') :: set m' k v
  end.

Definition keys (m : t) : list string := map fst m.

Definition clear (_ : t) : t := [].

End Defs.

Arguments t : clear implicits.

End JsMap.

(** ** Values and implementations

    Objects are known by their identity (a heap location); primitives are
    compared by value.  [===] on two values is equality of [value]. *)

Definition loc := nat.

Inductive value : Type :=
| VUndefined
| VBoolean (b : bool)
| VNumber (z : Z)
| VString (s : string)
| VObject (l : loc).

(** The code of a registered class or function is outside the container.
    An invocation is seen through what it hands back: an object created by
    this very invocation ([Fresh]), or a value that existed before it
    ([Existing]).  Implementations return normally and do not call back into
    the container. *)

Inductive yield : Type :=
| Fresh
| Existing (v : value).

Definition jsfunction : Type := list value -> yield.

(** [createInstance] tells three kinds of [implementation] apart:
    [typeof implementation === 'function'] with a [prototype.constructor]
    ([ImplClass], invoked with [new]), a function without one ([ImplFunction],
    called), and anything else ([ImplObject], a value built beforehand). *)

Inductive implementation : Type :=
| ImplClass (ctor : jsfunction)
| ImplFunction (fn : jsfunction)
| ImplObject (v : value).

Definition constructible (i : implementation) : bool :=
  match i with
  | ImplClass _ | ImplFunction _ => true
  | ImplObject _ => false
  end.

(** The descriptor [register] stores. *)
Record serviceConfig : Type := {
  sc_implementation : implementation;
  sc_singleton : bool;
  sc_dependencies : list string;
  sc_factory : bool
}.

(** The entry [registerFactory] stores. *)
Record factoryConfig : Type := {
  fc_factory : jsfunction;
  fc_dependencies : list string
}.

(** The [options] argument of [register]; a field left out is [None]. *)
Record options : Type := {
  opt_singleton : option bool;
  opt_dependencies : option (list string);
  opt_factory : option bool
}.

Definition no_options : options :=
  {| opt_singleton := None; opt_dependencies := None; opt_factory := None |}.

(** [x || d] for an optional field; also [get] of a [Map], which is
    [undefined] for a key that is absent. *)
Definition or_default {A : Type} (x : option A) (d : A) : A :=
  match x with
  | Some a => a
  | None => d
  end.

(** ** State

    The three maps of the constructor, the next free heap location, and a
    journal of the invocations the container has made (ghost state: it is
    written, never read, by the operations). *)

Inductive invocation : Type :=
| New (ctor : jsfunction) (args : list value) (result : value)
| Call (fn : jsfunction) (args : list value) (result : value).

Record DIContainer : Type := {
  services : JsMap.t serviceConfig;
  singletons : JsMap.t value;
  factories : JsMap.t factoryConfig
}.

Record state : Type := {
  container : DIContainer;
  next_loc : loc;
  journal : list invocation
}.

Definition new_DIContainer : DIContainer :=
  {| services := JsMap.empty; singletons := JsMap.empty; factories := JsMap.empty |}.

Definition initial : state :=
  {| container := new_DIContainer; next_loc := 0; journal := [] |}.

Definition with_container (c : DIContainer) (s : state) : state :=
  {| container := c; next_loc := next_loc s; journal := journal s |}.

(** ** Outcomes and the monad of the methods *)

Inductive error : Type :=
| ServiceNotRegistered (name : string)
| FactoryNotRegistered (name : string).

Definition message (e : error) : string :=
  match e with
  | ServiceNotRegistered name => ("Service '" ++ name ++ "' not registered")%string
  | FactoryNotRegistered name => ("Factory '" ++ name ++ "' not registered")%string
  end.

(** [OutOfFuel]: the call did not finish within the allowed depth of nested
    [resolve] calls. *)
Inductive outcome (A : Type) : Type :=
| Returned (a : A)
| Thrown (e : error)
| OutOfFuel.

Arguments Returned {A} a.
Arguments Thrown {A} e.
Arguments OutOfFuel {A}.

Definition M (A : Type) : Type := state -> outcome A * state.

Definition ret {A : Type} (a : A) : M A := fun s => (Returned a, s).

Definition throw {A : Type} (e : error) : M A := fun s => (Thrown e, s).

Definition bind {A B : Type} (m : M A) (k : A -> M B) : M B :=
  fun s =>
    match m s with
    | (Returned a, s') => k a s'
    | (Thrown e, s') => (Thrown e, s')
    | (OutOfFuel, s') => (OutOfFuel, s')
    end.

Notation "x <- m ;; k" := (bind m (fun x => k))
  (at level 61, m at next level, right associativity).

(** ** Invocations *)

Definition record (i : invocation) (s : state) : state :=
  {| container := container s; next_loc := next_loc s; journal := journal s ++ [i] |}.

Definition allocate (s : state) : value * state :=
  (VObject (next_loc s),
   {| container := container s; next_loc := S (next_loc s); journal := journal s |}).

(** [new] hands back the object its constructor returns, and the object it
    has created for [this] when the constructor returns anything else. *)
Definition new_yield (y : yield) : yield :=
  match y with
  | Existing (VObject l) => Existing (VObject l)
  | _ => Fresh
  end.

Definition invoke (y : yield) (s : state) : value * state :=
  match y with
  | Fresh => allocate s
  | Existing v => (v, s)
  end.

(** [new implementation(...resolvedDependencies)] *)
Definition js_new (ctor : jsfunction) (args : list value) : M value :=
  fun s =>
    let (v, s') := invoke (new_yield (ctor args)) s in
    (Returned v, record (New ctor args v) s').

(** [implementation(...resolvedDependencies)] *)
Definition js_call (fn : jsfunction) (args : list value) : M value :=
  fun s =>
    let (v, s') := invoke (fn args) s in
    (Returned v, record (Call fn args v) s').

(** ** The methods of [DIContainer] *)

Definition register (name : string) (impl : implementation) (o : options) : M unit :=
  fun s =>
    let serviceConfig :=
      {| sc_implementation := impl;
         sc_singleton := or_default (opt_singleton o) false;
         sc_dependencies := or_default (opt_dependencies o) [];
         sc_factory := or_default (opt_factory o) false |} in
    let c := container s in
    (Returned tt,
     with_container
       {| services := JsMap.set (services c) name serviceConfig;
          singletons := singletons c;
          factories := factories c |} s).

Definition registerSingleton (name : string) (impl : implementation)
    (dependencies : list string) : M unit :=
  register name impl
    {| opt_singleton := Some true;
       opt_dependencies := Some dependencies;
       opt_factory := None |}.

Definition registerFactory (name : string) (factory : jsfunction)
    (dependencies : list string) : M unit :=
  fun s =>
    let c := container s in
    (Returned tt,
     with_container
       {| services := services c;
          singletons := singletons c;
          factories :=
            JsMap.set (factories c) name
              {| fc_factory := factory; fc_dependencies := dependencies |} |} s).

(** [dependencies.map(dep => this.resolve(dep))]: left to right, the first
    failure ends the walk. *)
Fixpoint map_resolve (resolve : string -> M value) (deps : list string)
    : M (list value) :=
  match deps with
  | [] => ret []
  | dep :: deps' =>
      v <- resolve dep ;;
      vs <- map_resolve resolve deps' ;;
      ret (v :: vs)
  end.

(** [resolve] stands for [this.resolve], at the depth that is left. *)
Definition createInstance (resolve : string -> M value) (serviceConfig : serviceConfig)
    : M value :=
  match sc_implementation serviceConfig with
  | ImplClass ctor =>
      resolvedDependencies <- map_resolve resolve (sc_dependencies serviceConfig) ;;
      js_new ctor resolvedDependencies
  | ImplFunction fn =>
      resolvedDependencies <- map_resolve resolve (sc_dependencies serviceConfig) ;;
      js_call fn resolvedDependencies
  | ImplObject v => ret v
  end.

(** [this.singletons.set(name, instance)] *)
Definition cache_singleton (name : string) (instance : value) : M unit :=
  fun s =>
    let c := container s in
    (Returned tt,
     with_container
       {| services := services c;
          singletons := JsMap.set (singletons c) name instance;
          factories := factories c |} s).

(** [fuel] bounds the depth of nested [resolve] calls. *)
Fixpoint resolve (fuel : nat) (name : string) : M value :=
  fun s =>
    match fuel with
    | O => (OutOfFuel, s)
    | S fuel' =>
        if JsMap.has (singletons (container s)) name then
          ret (or_default (JsMap.get (singletons (container s)) name) VUndefined) s
        else
          match JsMap.get (services (container s)) name with
          | None => throw (ServiceNotRegistered name) s
          | Some serviceConfig =>
              if sc_singleton serviceConfig then
                (instance <- createInstance (resolve fuel') serviceConfig ;;
                 _ <- cache_singleton name instance ;;
                 ret instance) s
              else
                createInstance (resolve fuel') serviceConfig s
          end
    end.

Definition resolveFactory (fuel : nat) (name : string) : M value :=
  fun s =>
    match JsMap.get (factories (container s)) name with
    | None => throw (FactoryNotRegistered name) s
    | Some factoryConfig =>
        (resolvedDependencies <-
           map_resolve (resolve fuel) (fc_dependencies factoryConfig) ;;
         js_call (fc_factory factoryConfig) resolvedDependencies) s
    end.

Definition has (name : string) : M bool :=
  fun s =>
    (Returned (JsMap.has (services (container s)) name
               || JsMap.has (factories (container s)) name), s).

Definition getRegisteredServices : M (list string) :=
  fun s => (Returned (JsMap.keys (services (container s))), s).

Definition clear : M unit :=
  fun s =>
    let c := container s in
    (Returned tt,
     with_container
       {| services := JsMap.clear (services c);
          singletons := JsMap.clear (singletons c);
          factories := JsMap.clear (factories c) |} s).

(** ** Sequences of calls

    What a caller may do with the container between two calls of interest.
    A call that throws is caught by the caller; the state it leaves behind
    is kept.  The number carried by a resolution is its fuel. *)

Inductive op : Type :=
| OpRegister (name : string) (impl : implementation) (o : options)
| OpRegisterSingleton (name : string) (impl : implementation) (dependencies : list string)
| OpRegisterFactory (name : string) (factory : jsfunction) (dependencies : list string)
| OpResolve (fuel : nat) (name : string)
| OpResolveFactory (fuel : nat) (name : string)
| OpHas (name : string)
| OpGetRegisteredServices
| OpClear.

Definition exec (o : op) (s : state) : state :=
  match o with
  | OpRegister name impl o' => snd (register name impl o' s)
  | OpRegisterSingleton name impl deps => snd (registerSingleton name impl deps s)
  | OpRegisterFactory name f deps => snd (registerFactory name f deps s)
  | OpResolve fuel name => snd (resolve fuel name s)
  | OpResolveFactory fuel name => snd (resolveFactory fuel name s)
  | OpHas name => snd (has name s)
  | OpGetRegisteredServices => snd (getRegisteredServices s)
  | OpClear => snd (clear s)
  end.

Definition run (ops : list op) (s : state) : state :=
  fold_left (fun s' o => exec o s') ops s.

Definition is_clear (o : op) : bool :=
  match o with
  | OpClear => true
  | _ => false
  end.

Definition clear_free (ops : list op) : bool :=
  forallb (fun o => negb (is_clear o)) ops.

(** ** The dependency graph of a state *)

Definition cached (s : state) (name : string) : Prop :=
  exists v, JsMap.get (singletons (container s)) name = Some v.

Definition uncached (s : state) (name : string) : Prop :=
  JsMap.get (singletons (container s)) name = None.

Definition registered (s : state) (name : string) : Prop :=
  exists cfg, JsMap.get (services (container s)) name = Some cfg.

(** Neither cached nor described: [resolve] throws on such a name. *)
Definition missing (s : state) (name : string) : Prop :=
  uncached s name /\ JsMap.get (services (container s)) name = None.

(** An edge of the declared dependency graph restricted to names that are
    not cached. *)
Definition depends (s : state) (n d : string) : Prop :=
  uncached s n /\ uncached s d /\
  exists cfg, JsMap.get (services (container s)) n = Some cfg
              /\ In d (sc_dependencies cfg).

Inductive path (s : state) : string -> string -> Prop :=
| path_edge n d : depends s n d -> path s n d
| path_step n m d : depends s n m -> path s m d -> path s n d.

Definition acyclic (s : state) : Prop := forall n, ~ path s n n.

(** [needs s n d]: resolving [n] in [s] resolves [d], that is, [n] is not
    cached and its descriptor is constructible and lists [d]. *)
Definition needs (s : state) (n d : string) : Prop :=
  uncached s n /\
  exists cfg, JsMap.get (services (container s)) n = Some cfg
              /\ constructible (sc_implementation cfg) = true
              /\ In d (sc_dependencies cfg).

(** The names [n] transitively requires, [n] itself included. *)
Inductive requires (s : state) : string -> string -> Prop :=
| requires_refl n : requires s n n
| requires_step n m d : needs s n m -> requires s m d -> requires s n d.

(** [n] cannot be resolved: it requires a name that is missing. *)
Definition unresolvable (s : state) (n : string) : Prop :=
  exists d, requires s n d /\ missing s d.

Definition is_ServiceNotRegistered (e : error) : Prop :=
  exists d, e = ServiceNotRegistered d.

(** Every name that entered the cache between [s] and [t] could be
    resolved in [s]. *)
Definition newly_cached_resolvable (s t : state) : Prop :=
  forall x, cached t x -> uncached s x -> ~ unresolvable s x.

(** What a finished call [resolve(name)] from [s] to [s'] with outcome [r]
    tells about [s]. *)
Definition sound_call (name : string) (s : state) (r : outcome value) (s' : state)
    : Prop :=
  newly_cached_resolvable s s'
  /\ (forall v, r = Returned v -> ~ unresolvable s name)
  /\ (forall e, r = Thrown e ->
        exists d, e = ServiceNotRegistered d /\ missing s d /\ requires s name d).

(** A sufficient, executable test for [acyclic]: along every declared
    dependency on a described name, [rank] goes down. *)
Definition ranked_by (rank : string -> nat) (s : state) : bool :=
  forallb
    (fun entry : string * serviceConfig =>
       forallb
         (fun d => negb (JsMap.has (services (container s)) d)
                   || (rank d <? rank (fst entry))%nat)
         (sc_dependencies (snd entry)))
    (services (container s)).

(** The index of the first occurrence of [n] in [l]. *)
Fixpoint position (l : list string) (n : string) : nat :=
  match l with
  | [] => 0
  | k :: l' => if String.eqb k n then 0 else S (position l' n)
  end.

(** [n] lies on a cycle of the graph of [needs]. *)
Definition on_cycle (s : state) (n : string) : Prop :=
  exists m, needs s n m /\ requires s m n.

(** No name on a cycle of [s] is cached in [t]. *)
Definition cycles_uncached (s t : state) : Prop :=
  forall n, on_cycle s n -> uncached t n.

(** The dependencies are resolved one after the other, each by a call of
    [resolve] that returns, the state threaded from one call to the next. *)
Inductive resolved_in_order (resolve : string -> M value)
    : list string -> state -> list value -> state -> Prop :=
| rio_nil s : resolved_in_order resolve [] s [] s
| rio_cons dep deps s v s1 vs s2 :
    resolve dep s = (Returned v, s1) ->
    resolved_in_order resolve deps s1 vs s2 ->
    resolved_in_order resolve (dep :: deps) s (v :: vs) s2.

(** The journal entry made when [impl] is invoked on [args] and yields [v]. *)
Definition invoked (impl : implementation) (args : list value) (v : value)
    : list invocation :=
  match impl with
  | ImplClass ctor => [New ctor args v]
  | ImplFunction fn => [Call fn args v]
  | ImplObject _ => []
  end.

(** What an invocation of [impl] on [args] hands back, the value that
    results when the next free location is [l], and the next free location
    afterwards. *)
Definition yield_of (impl : implementation) (args : list value) : yield :=
  match impl with
  | ImplClass ctor => new_yield (ctor args)
  | ImplFunction fn => fn args
  | ImplObject v => Existing v
  end.

Definition result_of (impl : implementation) (args : list value) (l : loc) : value :=
  match yield_of impl args with
  | Fresh => VObject l
  | Existing w => w
  end.

Definition heap_after (impl : implementation) (args : list value) (l : loc) : loc :=
  match yield_of impl args with
  | Fresh => S l
  | Existing _ => l
  end.

(** An implementation every invocation of which creates a new object. *)
Definition creates_new_object (impl : implementation) : Prop :=
  constructible impl = true /\ forall args, yield_of impl args = Fresh.

(** ** What a resolution leaves in place

    [extends s t]: [t] has the descriptors and factories of [s], every cache
    entry of [s], a heap at least as large, and a journal that continues the
    one of [s]. *)

Record extends (s t : state) : Prop := {
  ext_services : services (container t) = services (container s);
  ext_factories : factories (container t) = factories (container s);
  ext_singletons : forall k v,
    JsMap.get (singletons (container s)) k = Some v ->
    JsMap.get (singletons (container t)) k = Some v;
  ext_next_loc : next_loc s <= next_loc t;
  ext_journal : exists l, journal t = journal s ++ l
}.

(** ** The example of the specification: config, logger, service *)

Module Scenario.

Definition config_object : value := VObject 0.

(** The heap already holds the configuration object. *)
Definition start : state :=
  {| container := new_DIContainer; next_loc := 1; journal := [] |}.

Definition Logger : jsfunction := fun _ => Fresh.
Definition Service : jsfunction := fun _ => Fresh.

Definition bootstrap : list op :=
  [ OpRegisterSingleton "config" (ImplObject config_object) [];
    OpRegisterSingleton "logger" (ImplFunction Logger) ["config"];
    OpRegisterSingleton "service" (ImplClass Service) ["logger"] ].

Definition booted : state := run bootstrap start.

(** A transient request handler with three dependencies. *)
Definition Handler : jsfunction := fun _ => Fresh.

Definition handler_dependencies : list string := ["service"; "config"; "logger"].

(** A mailer whose second dependency, "smtp", is never registered. *)
Definition Mailer : jsfunction := fun _ => Fresh.

Definition with_mailer : state :=
  snd (registerSingleton "mailer" (ImplClass Mailer) ["logger"; "smtp"] booted).

(** Two services that depend on each other. *)
Definition Chicken : jsfunction := fun _ => Fresh.
Definition Egg : jsfunction := fun _ => Fresh.

Definition cyclic : state :=
  run [ OpRegisterSingleton "chicken" (ImplClass Chicken) ["config"; "egg"];
        OpRegisterSingleton "egg" (ImplClass Egg) ["chicken"];
        OpResolve 1 "config" ] booted.

(** A declared cycle through a value built beforehand. *)
Definition declared_cycle : state :=
  run [ OpRegister "settings" (ImplObject config_object)
          {| opt_singleton := None; opt_dependencies := Some ["audit"];
             opt_factory := None |};
        OpRegister "audit" (ImplClass Service)
          {| opt_singleton := None; opt_dependencies := Some ["settings"];
             opt_factory := None |} ] start.

(** A declared cycle behind a name that is never registered. *)
Definition cycle_behind_missing : state :=
  run [ OpRegisterSingleton "chicken" (ImplClass Chicken) ["smtp"; "egg"];
        OpRegisterSingleton "egg" (ImplClass Egg) ["chicken"] ] booted.

Definition with_handler : state :=
  snd (register "handler" (ImplClass Handler)
         {| opt_singleton := None;
            opt_dependencies := Some handler_dependencies;
            opt_factory := None |} booted).

End Scenario.

(** ** The bootstrap of [registerServices.js]

    The modules the file requires: the configuration object (an instance,
    not a function) and the six classes. *)

Record imports : Type := {
  config : loc;
  LoggerService : jsfunction;
  DatabaseService : jsfunction;
  EmailService : jsfunction;
  StudentRepository : jsfunction;
  StudentService : jsfunction;
  StudentController : jsfunction
}.

(** The closing [console.log] writes to the console only. *)
Definition registerServices (m : imports) : M unit :=
  _ <- registerSingleton "config" (ImplObject (VObject (config m))) [] ;;
  _ <- registerSingleton "logger" (ImplClass (LoggerService m)) ["config"] ;;
  _ <- registerSingleton "databaseService" (ImplClass (DatabaseService m))
         ["config"; "logger"] ;;
  _ <- registerSingleton "emailService" (ImplClass (EmailService m))
         ["config"; "logger"] ;;
  _ <- registerSingleton "studentRepository" (ImplClass (StudentRepository m))
         ["databaseService"; "logger"] ;;
  _ <- registerSingleton "studentService" (ImplClass (StudentService m))
         ["studentRepository"; "emailService"; "logger"] ;;
  _ <- registerSingleton "studentController" (ImplClass (StudentController m))
         ["studentService"; "logger"] ;;
  ret tt.

Definition getService (fuel : nat) (serviceName : string) : M value :=
  resolve fuel serviceName.

(** The names [registerServices] registers, in its order. *)
Definition bootstrap_names : list string :=
  [ "config"; "logger"; "databaseService"; "emailService";
    "studentRepository"; "studentService"; "studentController" ].

(** ** Further notions about states *)

(** [s] with another factory table. *)
Definition with_factories (F : JsMap.t factoryConfig) (s : state) : state :=
  with_container
    {| services := services (container s);
       singletons := singletons (container s);
       factories := F |} s.

(** The result of a method, carried over to the factory table [F]. *)
Definition on_factories {A : Type} (F : JsMap.t factoryConfig)
    (p : outcome A * state) : outcome A * state :=
  (fst p, with_factories F (snd p)).

(** A name that is cached or whose descriptor carries the singleton flag. *)
Definition shared (s : state) (name : string) : Prop :=
  cached s name
  \/ exists cfg, JsMap.get (services (container s)) name = Some cfg
                 /\ sc_singleton cfg = true.

(** A state whose container has just been constructed. *)
Definition fresh_container (s : state) : Prop := container s = new_DIContainer.

(** [x] entered the singleton cache between [s] and [t]. *)
Definition newly_cached (s t : state) (x : string) : Prop :=
  uncached s x /\ cached t x.

Definition singleton_flagged (s : state) (x : string) : Prop :=
  exists cfg, JsMap.get (services (container s)) x = Some cfg
              /\ sc_singleton cfg = true.

(** Every cached name has a descriptor. *)
Definition cache_described (s : state) : Prop :=
  forall name, cached s name -> registered s name.

(** An application to run the bootstrap on: every class creates an object,
    and the configuration object is the one at location 0. *)
Module Application.

Definition modules : imports :=
  {| config := 0;
     LoggerService := fun _ => Fresh;
     DatabaseService := fun _ => Fresh;
     EmailService := fun _ => Fresh;
     StudentRepository := fun _ => Fresh;
     StudentService := fun _ => Fresh;
     StudentController := fun _ => Fresh |}.

Definition start : state :=
  {| container := new_DIContainer; next_loc := 1; journal := [] |}.

End Application.

(** ** The process environment, the feature flags and the logger

    [process.env] maps a variable to a string or to [undefined]. *)

Definition environment : Type := string -> option string.

(** [process.env.X === 'true'] *)
Definition is_true (env : environment) (variable : string) : bool :=
  match env variable with
  | Some s => String.eqb s "true"
  | None => false
  end.

(** [process.env.X || d] for a string [d]: the empty string is falsy. *)
Definition string_or (env : environment) (variable d : string) : string :=
  match env variable with
  | Some s => if String.eqb s "" then d else s
  | None => d
  end.

(** The [features] object that [loadConfig] of [ApplicationConfig] builds. *)
Record features : Type := {
  emailVerification : bool;
  csrfProtection : bool;
  rateLimiting : bool;
  caching : bool
}.

Definition load_features (env : environment) : features :=
  {| emailVerification := is_true env "FEATURE_EMAIL_VERIFICATION" || true;
     csrfProtection := is_true env "FEATURE_CSRF_PROTECTION" || true;
     rateLimiting := is_true env "FEATURE_RATE_LIMITING" || false;
     caching := is_true env "FEATURE_CACHING" || false |}.

(** [database.ssl], [server.cors.credentials] and [server.environment] of
    the same [loadConfig]. *)
Definition load_database_ssl (env : environment) : bool :=
  is_true env "DB_SSL" || false.

Definition load_cors_credentials (env : environment) : bool :=
  is_true env "CORS_CREDENTIALS" || true.

Definition load_server_environment (env : environment) : string :=
  string_or env "NODE_ENV" "development".

(** [LoggerService]: the constructor reads the environment of the server
    configuration it is given; [shouldLog] compares the entries of its table
    of levels.  A level that the table lacks yields no number, and [>=]
    against the number of the logger's own level is then false. *)
Definition logLevel (server_environment : string) : string :=
  if String.eqb server_environment "production" then "warn" else "debug".

Definition levels (level : string) : option nat :=
  if String.eqb level "debug" then Some 0
  else if String.eqb level "info" then Some 1
  else if String.eqb level "warn" then Some 2
  else if String.eqb level "error" then Some 3
  else None.

Definition shouldLog (server_environment level : string) : bool :=
  match levels level, levels (logLevel server_environment) with
  | Some l, Some threshold => (threshold <=? l)%nat
  | _, _ => false
  end.

(** * Facts about [JsMap] *)

Module JsMapFacts.

Import JsMap.

Section Facts.
Context {V : Type}.
Implicit Type m : JsMap.t V.

Lemma get_set_eq m k (v : V) : get (set m k v) k = Some v.
Proof.
  induction m as [|[k' v'] m IH]; simpl.
  - now rewrite String.eqb_refl.
  - destruct (String.eqb k' k) eqn:E; simpl; rewrite E; auto.
Qed.

Lemma get_set_ne m k k' (v : V) : k <> k' -> get (set m k v) k' = get m k'.
Proof.
  intros Hne. induction m as [|[k0 v0] m IH]; simpl.
  - destruct (String.eqb k k') eqn:E; auto.
    apply String.eqb_eq in E. contradiction.
  - destruct (String.eqb k0 k) eqn:E; simpl.
    + apply String.eqb_eq in E. subst k0.
      destruct (String.eqb k k') eqn:E'; auto.
      apply String.eqb_eq in E'. contradiction.
    + now rewrite IH.
Qed.

Lemma get_set m k k' (v : V) :
  get (set m k v) k' = if String.eqb k k' then Some v else get m k'.
Proof.
  destruct (String.eqb k k') eqn:E.
  - apply String.eqb_eq in E. subst. apply get_set_eq.
  - apply String.eqb_neq in E. now apply get_set_ne.
Qed.

Lemma get_Some_keys m k (v : V) : get m k = Some v -> In k (keys m).
Proof.
  induction m as [|[k' v'] m IH]; simpl; [discriminate|].
  destruct (String.eqb k' k) eqn:E.
  - apply String.eqb_eq in E. auto.
  - auto.
Qed.

Lemma has_true m k : has m k = true <-> exists v, get m k = Some v.
Proof.
  unfold has. destruct (get m k); split; intros H; eauto; try discriminate.
  now destruct H.
Qed.

Lemma has_false m k : has m k = false <-> get m k = None.
Proof.
  unfold has. destruct (get m k); split; intros H; auto; discriminate.
Qed.

Lemma get_empty k : get (@empty V) k = None.
Proof. reflexivity. Qed.

Lemma get_clear m k : get (clear m) k = None.
Proof. reflexivity. Qed.

End Facts.

End JsMapFacts.

(** * The scenario runs as the specification describes *)

Example scenario_resolve_service :
  fst (resolve 3 "service" Scenario.booted) = Returned (VObject 2)
  /\ journal (snd (resolve 3 "service" Scenario.booted))
     = [ Call Scenario.Logger [VObject 0] (VObject 1);
         New Scenario.Service [VObject 1] (VObject 2) ]
  /\ fst (resolve 1 "logger" (snd (resolve 3 "service" Scenario.booted)))
     = Returned (VObject 1)
  /\ fst (resolve 2 "service" Scenario.booted) = OutOfFuel.
Proof. repeat split. Qed.

(** * Reasoning about the monad *)

Ltac inv H := inversion H; subst; clear H.

Lemma bind_Returned {A B : Type} (m : M A) (k : A -> M B) s a s1 :
  m s = (Returned a, s1) -> bind m k s = k a s1.
Proof. intros E. unfold bind. now rewrite E. Qed.

Lemma bind_Thrown {A B : Type} (m : M A) (k : A -> M B) s e s1 :
  m s = (Thrown e, s1) -> bind m k s = (Thrown e, s1).
Proof. intros E. unfold bind. now rewrite E. Qed.

Lemma bind_OutOfFuel {A B : Type} (m : M A) (k : A -> M B) s s1 :
  m s = (OutOfFuel, s1) -> bind m k s = (OutOfFuel, s1).
Proof. intros E. unfold bind. now rewrite E. Qed.

Lemma bind_inv {A B : Type} (m : M A) (k : A -> M B) s r s' :
  bind m k s = (r, s') ->
  (exists a s1, m s = (Returned a, s1) /\ k a s1 = (r, s'))
  \/ (exists e, m s = (Thrown e, s') /\ r = Thrown e)
  \/ (m s = (OutOfFuel, s') /\ r = OutOfFuel).
Proof.
  unfold bind. destruct (m s) as [[a|e|] s1]; intros H.
  - left. eauto.
  - inv H. right. left. eauto.
  - inv H. right. right. auto.
Qed.

(** Splits a hypothesis [bind m k s = (r, s')] into its three cases. *)
Ltac bind_cases H :=
  let a := fresh "a" in
  let s1 := fresh "s1" in
  let e := fresh "e" in
  let E := fresh "E" in
  apply bind_inv in H;
  destruct H as [(a & s1 & E & H) | [(e & E & H) | (E & H)]].

(** [has] followed by [get] is one lookup. *)
Lemma resolve_unfold fuel name s :
  resolve (S fuel) name s =
    match JsMap.get (singletons (container s)) name with
    | Some instance => (Returned instance, s)
    | None =>
        match JsMap.get (services (container s)) name with
        | None => (Thrown (ServiceNotRegistered name), s)
        | Some cfg =>
            if sc_singleton cfg then
              (instance <- createInstance (resolve fuel) cfg ;;
               _ <- cache_singleton name instance ;;
               ret instance) s
            else createInstance (resolve fuel) cfg s
        end
    end.
Proof.
  simpl. unfold JsMap.has.
  now destruct (JsMap.get (singletons (container s)) name).
Qed.

Lemma resolve_cached fuel name s v :
  JsMap.get (singletons (container s)) name = Some v ->
  resolve (S fuel) name s = (Returned v, s).
Proof. intros E. rewrite resolve_unfold. now rewrite E. Qed.

Lemma resolve_missing fuel name s :
  missing s name ->
  resolve (S fuel) name s = (Thrown (ServiceNotRegistered name), s).
Proof.
  intros [E1 E2]. unfold uncached in E1. rewrite resolve_unfold. now rewrite E1, E2.
Qed.

Lemma resolve_construct fuel name s cfg :
  uncached s name ->
  JsMap.get (services (container s)) name = Some cfg ->
  resolve (S fuel) name s =
    if sc_singleton cfg then
      (instance <- createInstance (resolve fuel) cfg ;;
       _ <- cache_singleton name instance ;;
       ret instance) s
    else createInstance (resolve fuel) cfg s.
Proof.
  intros E1 E2. unfold uncached in E1. rewrite resolve_unfold. now rewrite E1, E2.
Qed.

(** * What a resolution leaves in place *)

Lemma extends_refl s : extends s s.
Proof. split; auto. exists []. now rewrite app_nil_r. Qed.

Lemma extends_trans s t u : extends s t -> extends t u -> extends s u.
Proof.
  intros [A1 A2 A3 A4 [l1 A5]] [B1 B2 B3 B4 [l2 B5]]. split.
  - congruence.
  - congruence.
  - auto.
  - lia.
  - exists (l1 ++ l2). rewrite B5, A5. now rewrite app_assoc.
Qed.

Lemma extends_uncached s t name : extends s t -> uncached t name -> uncached s name.
Proof.
  intros Hext Hu. unfold uncached in *.
  destruct (JsMap.get (singletons (container s)) name) eqn:E; auto.
  apply (ext_singletons _ _ Hext) in E. congruence.
Qed.

Lemma invoke_extends y s v s' : invoke y s = (v, s') -> extends s s'.
Proof.
  unfold invoke, allocate. destruct y; intros H; inv H.
  - split; simpl; auto. exists []. now rewrite app_nil_r.
  - apply extends_refl.
Qed.

Lemma record_extends i s : extends s (record i s).
Proof. split; simpl; auto. eauto. Qed.

Lemma js_new_extends f args s r s' : js_new f args s = (r, s') -> extends s s'.
Proof.
  unfold js_new. destruct (invoke (new_yield (f args)) s) as [v s1] eqn:E.
  intros H. inv H.
  eapply extends_trans; [eapply invoke_extends; eauto | apply record_extends].
Qed.

Lemma js_call_extends f args s r s' : js_call f args s = (r, s') -> extends s s'.
Proof.
  unfold js_call. destruct (invoke (f args) s) as [v s1] eqn:E. intros H. inv H.
  eapply extends_trans; [eapply invoke_extends; eauto | apply record_extends].
Qed.

Section MapResolveExtends.

Variable resolver : string -> M value.
Hypothesis resolver_extends : forall d s r s', resolver d s = (r, s') -> extends s s'.

Lemma map_resolve_extends deps s r s' :
  map_resolve resolver deps s = (r, s') -> extends s s'.
Proof.
  revert s r s'. induction deps as [|d deps IH]; simpl; intros s r s' H.
  - inv H. apply extends_refl.
  - bind_cases H.
    + apply resolver_extends in E.
      bind_cases H.
      * inv H. eapply extends_trans; eauto.
      * eapply extends_trans; eauto.
      * eapply extends_trans; eauto.
    + eauto.
    + eauto.
Qed.

Lemma createInstance_extends cfg s r s' :
  createInstance resolver cfg s = (r, s') -> extends s s'.
Proof.
  unfold createInstance. destruct (sc_implementation cfg); intros H.
  - bind_cases H; try (eapply map_resolve_extends; eassumption).
    eapply extends_trans; [eapply map_resolve_extends | eapply js_new_extends]; eauto.
  - bind_cases H; try (eapply map_resolve_extends; eassumption).
    eapply extends_trans; [eapply map_resolve_extends | eapply js_call_extends]; eauto.
  - inv H. apply extends_refl.
Qed.

End MapResolveExtends.

Lemma resolve_extends fuel : forall name s r s',
  resolve fuel name s = (r, s') -> extends s s'.
Proof.
  induction fuel as [|fuel IH]; intros name s r s' H.
  - inv H. apply extends_refl.
  - rewrite resolve_unfold in H.
    destruct (JsMap.get (singletons (container s)) name) as [v|] eqn:E1.
    { inv H. apply extends_refl. }
    destruct (JsMap.get (services (container s)) name) as [cfg|] eqn:E2.
    2:{ inv H. apply extends_refl. }
    destruct (sc_singleton cfg).
    + bind_cases H; try (eapply createInstance_extends; eassumption).
      assert (Hext : extends s s1) by (eapply createInstance_extends; eassumption).
      bind_cases H; try discriminate. inv H. inv E0.
      destruct Hext as [A1 A2 A3 A4 A5]. split; simpl; auto.
      intros k w Ek. rewrite JsMapFacts.get_set_ne; auto.
      intros ->. congruence.
    + eapply createInstance_extends; eassumption.
Qed.

Lemma resolveFactory_extends fuel name s r s' :
  resolveFactory fuel name s = (r, s') -> extends s s'.
Proof.
  unfold resolveFactory.
  destruct (JsMap.get (factories (container s)) name) as [fc|]; intros H.
  - bind_cases H.
    + eapply extends_trans; [|eapply js_call_extends; eassumption].
      eapply map_resolve_extends; [|eassumption]. apply resolve_extends.
    + eapply map_resolve_extends; [|eassumption]. apply resolve_extends.
    + eapply map_resolve_extends; [|eassumption]. apply resolve_extends.
  - inv H. apply extends_refl.
Qed.

(** ** Cache entries and the heap across a sequence of calls *)

Lemma exec_keeps_cached o s name v :
  is_clear o = false ->
  JsMap.get (singletons (container s)) name = Some v ->
  JsMap.get (singletons (container (exec o s))) name = Some v.
Proof.
  intros Hc E. destruct o; simpl; auto; try discriminate.
  - destruct (resolve fuel name0 s) as [r s'] eqn:R. simpl.
    apply resolve_extends in R. now apply (ext_singletons _ _ R).
  - destruct (resolveFactory fuel name0 s) as [r s'] eqn:R. simpl.
    apply resolveFactory_extends in R. now apply (ext_singletons _ _ R).
Qed.

Lemma run_keeps_cached ops : forall s name v,
  clear_free ops = true ->
  JsMap.get (singletons (container s)) name = Some v ->
  JsMap.get (singletons (container (run ops s))) name = Some v.
Proof.
  induction ops as [|o ops IH]; simpl; intros s name v Hc E; auto.
  apply andb_prop in Hc. destruct Hc as [Ho Hc].
  apply IH; auto. apply exec_keeps_cached; auto.
  now destruct (is_clear o).
Qed.

Lemma exec_next_loc o s : next_loc s <= next_loc (exec o s).
Proof.
  destruct o; simpl; auto.
  - destruct (resolve fuel name s) as [r s'] eqn:R. simpl.
    apply resolve_extends in R. apply (ext_next_loc _ _ R).
  - destruct (resolveFactory fuel name s) as [r s'] eqn:R. simpl.
    apply resolveFactory_extends in R. apply (ext_next_loc _ _ R).
Qed.

Lemma run_next_loc ops : forall s, next_loc s <= next_loc (run ops s).
Proof.
  induction ops as [|o ops IH]; simpl; intros s; auto.
  etransitivity; [apply exec_next_loc | apply IH].
Qed.

Lemma registerSingleton_descriptor name impl deps s :
  JsMap.get (services (container (snd (registerSingleton name impl deps s)))) name
  = Some {| sc_implementation := impl; sc_singleton := true;
            sc_dependencies := deps; sc_factory := false |}.
Proof. simpl. apply JsMapFacts.get_set_eq. Qed.

(** ** Dependencies resolved in order *)

Lemma map_resolve_in_order resolver deps : forall s args s1,
  map_resolve resolver deps s = (Returned args, s1)
  <-> resolved_in_order resolver deps s args s1.
Proof.
  induction deps as [|d deps IH]; simpl; intros s args s1; split; intros H.
  - inv H. constructor.
  - now inv H.
  - bind_cases H; try discriminate.
    bind_cases H; try discriminate.
    inv H. econstructor; eauto. now apply IH.
  - inversion H as [|? ? ? v s' vs ? Hd Hr]; subst.
    rewrite (bind_Returned _ _ _ _ _ Hd).
    apply IH in Hr. now rewrite (bind_Returned _ _ _ _ _ Hr).
Qed.

Lemma resolved_in_order_length resolver deps s args s1 :
  resolved_in_order resolver deps s args s1 -> List.length args = List.length deps.
Proof. induction 1; simpl; auto. Qed.

Lemma js_new_spec f args s :
  exists v s', js_new f args s = (Returned v, s')
               /\ journal s' = journal s ++ [New f args v]
               /\ container s' = container s
               /\ v = result_of (ImplClass f) args (next_loc s)
               /\ next_loc s' = heap_after (ImplClass f) args (next_loc s).
Proof.
  unfold js_new, invoke, allocate, result_of, heap_after. simpl.
  destruct (new_yield (f args)); simpl; eauto 10.
Qed.

Lemma js_call_spec f args s :
  exists v s', js_call f args s = (Returned v, s')
               /\ journal s' = journal s ++ [Call f args v]
               /\ container s' = container s
               /\ v = result_of (ImplFunction f) args (next_loc s)
               /\ next_loc s' = heap_after (ImplFunction f) args (next_loc s).
Proof.
  unfold js_call, invoke, allocate, result_of, heap_after. simpl.
  destruct (f args); simpl; eauto 10.
Qed.

Lemma createInstance_constructible resolver cfg s :
  constructible (sc_implementation cfg) = true ->
  (forall args s1,
      resolved_in_order resolver (sc_dependencies cfg) s args s1 ->
      exists v s2,
        createInstance resolver cfg s = (Returned v, s2)
        /\ journal s2 = journal s1 ++ invoked (sc_implementation cfg) args v
        /\ container s2 = container s1
        /\ v = result_of (sc_implementation cfg) args (next_loc s1)
        /\ next_loc s2 = heap_after (sc_implementation cfg) args (next_loc s1))
  /\ (forall v s2,
        createInstance resolver cfg s = (Returned v, s2) ->
        exists args s1,
          resolved_in_order resolver (sc_dependencies cfg) s args s1
          /\ journal s2 = journal s1 ++ invoked (sc_implementation cfg) args v
          /\ container s2 = container s1
          /\ v = result_of (sc_implementation cfg) args (next_loc s1)
          /\ next_loc s2 = heap_after (sc_implementation cfg) args (next_loc s1)).
Proof.
  intros Hc. unfold createInstance.
  destruct (sc_implementation cfg) as [f|f|w]; try discriminate; split.
  - intros args s1 H. apply map_resolve_in_order in H.
    rewrite (bind_Returned _ _ _ _ _ H).
    destruct (js_new_spec f args s1) as (v & s2 & A & B & C & D & F). eauto 10.
  - intros v s2 H. bind_cases H; try discriminate.
    destruct (js_new_spec f a s1) as (v' & s2' & A & B & C & D & F).
    rewrite A in H. inv H. apply map_resolve_in_order in E. eauto 10.
  - intros args s1 H. apply map_resolve_in_order in H.
    rewrite (bind_Returned _ _ _ _ _ H).
    destruct (js_call_spec f args s1) as (v & s2 & A & B & C & D & F). eauto 10.
  - intros v s2 H. bind_cases H; try discriminate.
    destruct (js_call_spec f a s1) as (v' & s2' & A & B & C & D & F).
    rewrite A in H. inv H. apply map_resolve_in_order in E. eauto 10.
Qed.

(** [resolve] on a name that is not cached, in terms of [createInstance]. *)
Lemma resolve_uncached_Returned fuel name cfg s :
  uncached s name ->
  JsMap.get (services (container s)) name = Some cfg ->
  (forall v s2,
      createInstance (resolve fuel) cfg s = (Returned v, s2) ->
      exists s', resolve (S fuel) name s = (Returned v, s')
                 /\ journal s' = journal s2 /\ next_loc s' = next_loc s2
                 /\ s' = if sc_singleton cfg
                         then snd (cache_singleton name v s2) else s2)
  /\ (forall v s',
        resolve (S fuel) name s = (Returned v, s') ->
        exists s2, createInstance (resolve fuel) cfg s = (Returned v, s2)
                   /\ journal s' = journal s2 /\ next_loc s' = next_loc s2
                   /\ s' = if sc_singleton cfg
                           then snd (cache_singleton name v s2) else s2).
Proof.
  intros Hu Hcfg. rewrite (resolve_construct _ _ _ _ Hu Hcfg). split.
  - intros v s2 H. destruct (sc_singleton cfg).
    + rewrite (bind_Returned _ _ _ _ _ H). unfold bind, cache_singleton, ret. simpl.
      eauto.
    + eauto.
  - intros v s' H. destruct (sc_singleton cfg).
    + bind_cases H; try discriminate.
      bind_cases H; try discriminate. inv H. inv E0. simpl. eauto.
    + eauto.
Qed.

(** ** The errors [resolve] throws *)

Lemma map_resolve_Thrown resolver deps : forall s e s',
  map_resolve resolver deps s = (Thrown e, s') ->
  exists d s0, In d deps /\ resolver d s0 = (Thrown e, s').
Proof.
  induction deps as [|d deps IH]; simpl; intros s e s' H.
  - discriminate.
  - bind_cases H.
    + bind_cases H.
      * discriminate.
      * inv H. destruct (IH _ _ _ E0) as (d' & s0 & Hin & Hd). eauto.
      * discriminate.
    + inv H. eauto.
    + discriminate.
Qed.

Lemma createInstance_Thrown resolver cfg s e s' :
  createInstance resolver cfg s = (Thrown e, s') ->
  exists d s0, In d (sc_dependencies cfg) /\ resolver d s0 = (Thrown e, s').
Proof.
  unfold createInstance. destruct (sc_implementation cfg) as [f|f|w]; intros H.
  - bind_cases H.
    + destruct (js_new_spec f a s1) as (v & s2 & A & _). congruence.
    + inv H. eapply map_resolve_Thrown; eauto.
    + discriminate.
  - bind_cases H.
    + destruct (js_call_spec f a s1) as (v & s2 & A & _). congruence.
    + inv H. eapply map_resolve_Thrown; eauto.
    + discriminate.
  - discriminate.
Qed.

Lemma resolve_Thrown fuel : forall name s e s',
  resolve fuel name s = (Thrown e, s') -> is_ServiceNotRegistered e.
Proof.
  induction fuel as [|fuel IH]; intros name s e s' H.
  - discriminate.
  - rewrite resolve_unfold in H.
    destruct (JsMap.get (singletons (container s)) name) as [v|]; [discriminate|].
    destruct (JsMap.get (services (container s)) name) as [cfg|].
    2:{ inv H. now exists name. }
    destruct (sc_singleton cfg).
    + bind_cases H.
      * bind_cases H; discriminate.
      * inv H. apply createInstance_Thrown in E.
        destruct E as (d & s0 & _ & Hd). eauto.
      * discriminate.
    + apply createInstance_Thrown in H.
      destruct H as (d & s0 & _ & Hd). eauto.
Qed.

(** * Termination on acyclic graphs *)

Section Termination.

Variable s0 : state.
Hypothesis s0_acyclic : acyclic s0.

Lemma path_snoc x n d : path s0 x n -> depends s0 n d -> path s0 x d.
Proof.
  induction 1 as [a b Hab | a m b Ham Hmb IH]; intros Hd.
  - eapply path_step; eauto. now apply path_edge.
  - eapply path_step; eauto.
Qed.

Lemma map_resolve_terminates resolver deps :
  (forall d s r s', resolver d s = (r, s') -> extends s s') ->
  (forall d s, In d deps -> extends s0 s ->
     exists r s', resolver d s = (r, s') /\ r <> OutOfFuel) ->
  forall s, extends s0 s ->
    exists r s', map_resolve resolver deps s = (r, s') /\ r <> OutOfFuel.
Proof.
  intros Hext. induction deps as [|d deps IH]; intros Hterm s Hs; simpl.
  - eexists _, _. split; [reflexivity | discriminate].
  - destruct (Hterm d s (or_introl eq_refl) Hs) as (r & s1 & E & Hr).
    destruct r as [v|e|]; [| |congruence].
    + rewrite (bind_Returned _ _ _ _ _ E).
      destruct (IH (fun d' t H => Hterm d' t (or_intror H)) s1) as (r2 & s2 & E2 & Hr2).
      { eapply extends_trans; eauto. }
      destruct r2 as [vs|e|]; [| |congruence].
      * rewrite (bind_Returned _ _ _ _ _ E2). eexists _, _.
        split; [reflexivity | discriminate].
      * rewrite (bind_Thrown _ _ _ _ _ E2). eexists _, _.
        split; [reflexivity | discriminate].
    + rewrite (bind_Thrown _ _ _ _ _ E). eexists _, _.
      split; [reflexivity | discriminate].
Qed.

Lemma createInstance_terminates resolver cfg :
  (forall d s r s', resolver d s = (r, s') -> extends s s') ->
  (forall d s, In d (sc_dependencies cfg) -> extends s0 s ->
     exists r s', resolver d s = (r, s') /\ r <> OutOfFuel) ->
  forall s, extends s0 s ->
    exists r s', createInstance resolver cfg s = (r, s') /\ r <> OutOfFuel.
Proof.
  intros Hext Hterm s Hs. unfold createInstance.
  destruct (map_resolve_terminates resolver _ Hext Hterm s Hs) as (r & s1 & E & Hr).
  destruct (sc_implementation cfg) as [f|f|w].
  - destruct r as [args|e|]; [| |congruence].
    + rewrite (bind_Returned _ _ _ _ _ E).
      destruct (js_new_spec f args s1) as (v & s2 & A & _).
      rewrite A. eexists _, _. split; [reflexivity | discriminate].
    + rewrite (bind_Thrown _ _ _ _ _ E). eexists _, _.
      split; [reflexivity | discriminate].
  - destruct r as [args|e|]; [| |congruence].
    + rewrite (bind_Returned _ _ _ _ _ E).
      destruct (js_call_spec f args s1) as (v & s2 & A & _).
      rewrite A. eexists _, _. split; [reflexivity | discriminate].
    + rewrite (bind_Thrown _ _ _ _ _ E). eexists _, _.
      split; [reflexivity | discriminate].
  - eexists _, _. split; [reflexivity | discriminate].
Qed.

(** [anc] are the names whose resolution is under way, innermost first; on
    an acyclic graph they are distinct descriptors, so there are at most as
    many as the service store has keys. *)
Lemma resolve_terminates_core : forall fuel anc name s,
  extends s0 s ->
  NoDup anc ->
  (forall x, In x anc ->
     In x (JsMap.keys (services (container s0))) /\ path s0 x name) ->
  List.length (JsMap.keys (services (container s0))) < fuel + List.length anc ->
  exists r s', resolve fuel name s = (r, s') /\ r <> OutOfFuel.
Proof.
  induction fuel as [|fuel IH]; intros anc name s Hs Hnd Hanc Hlen.
  - exfalso.
    assert (List.length anc <= List.length (JsMap.keys (services (container s0)))).
    { apply NoDup_incl_length; auto. intros x Hx. now apply Hanc. }
    simpl in Hlen. lia.
  - destruct (JsMap.get (singletons (container s)) name) as [v|] eqn:E1.
    { rewrite (resolve_cached _ _ _ _ E1). eexists _, _.
      split; [reflexivity | discriminate]. }
    destruct (JsMap.get (services (container s)) name) as [cfg|] eqn:E2.
    2:{ rewrite resolve_missing by (split; assumption). eexists _, _.
        split; [reflexivity | discriminate]. }
    rewrite (resolve_construct _ _ _ _ E1 E2).
    assert (E2' : JsMap.get (services (container s0)) name = Some cfg).
    { now rewrite <- (ext_services _ _ Hs). }
    assert (Hu0 : uncached s0 name) by (eapply extends_uncached; eauto).
    assert (Hnotin : ~ In name anc).
    { intros Hin. destruct (Hanc _ Hin) as [_ Hp]. exact (s0_acyclic _ Hp). }
    assert (Hnd' : NoDup (name :: anc)) by (constructor; auto).
    assert (Hlen' : List.length (name :: anc)
                    <= List.length (JsMap.keys (services (container s0)))).
    { apply NoDup_incl_length; auto. intros x [<-|Hx].
      - eapply JsMapFacts.get_Some_keys; eauto.
      - now apply Hanc. }
    simpl in Hlen'.
    assert (Hterm : forall d t, In d (sc_dependencies cfg) -> extends s0 t ->
              exists r s', resolve fuel d t = (r, s') /\ r <> OutOfFuel).
    { intros d t Hd Ht.
      destruct (JsMap.get (singletons (container t)) d) as [w|] eqn:Ed.
      - destruct fuel as [|fuel']; [lia|].
        rewrite (resolve_cached _ _ _ _ Ed). eexists _, _.
        split; [reflexivity | discriminate].
      - assert (Hdep : depends s0 name d).
        { repeat split; auto.
          - eapply extends_uncached; eauto.
          - eauto. }
        apply (IH (name :: anc)); auto.
        + intros x [<-|Hx].
          * split; [eapply JsMapFacts.get_Some_keys; eauto | now apply path_edge].
          * destruct (Hanc _ Hx) as [Hk Hp]. split; auto.
            eapply path_snoc; eauto.
        + simpl. lia. }
    destruct (createInstance_terminates (resolve fuel) cfg
                (resolve_extends fuel) Hterm s Hs) as (r & s1 & E & Hr).
    destruct (sc_singleton cfg).
    + destruct r as [v|e|]; [| |congruence].
      * rewrite (bind_Returned _ _ _ _ _ E). unfold bind, cache_singleton, ret.
        eexists _, _. split; [reflexivity | discriminate].
      * rewrite (bind_Thrown _ _ _ _ _ E). eexists _, _.
        split; [reflexivity | discriminate].
    + eauto.
Qed.

Lemma resolve_terminates_acyclic name fuel :
  List.length (JsMap.keys (services (container s0))) < fuel ->
  exists r s', resolve fuel name s0 = (r, s') /\ r <> OutOfFuel.
Proof.
  intros Hlen. apply (resolve_terminates_core fuel [] name s0).
  - apply extends_refl.
  - constructor.
  - intros x [].
  - simpl. lia.
Qed.

End Termination.

(** * Missing names *)

Lemma needs_mono s t n d : extends s t -> needs t n d -> needs s n d.
Proof.
  intros Hext (Hu & cfg & Hcfg & Hc & Hin). split.
  - eapply extends_uncached; eauto.
  - exists cfg. rewrite <- (ext_services _ _ Hext). auto.
Qed.

Lemma requires_mono s t n d : extends s t -> requires t n d -> requires s n d.
Proof.
  intros Hext. induction 1 as [n | n m d Hn Hr IH].
  - constructor.
  - eapply requires_step; eauto. eapply needs_mono; eauto.
Qed.

Lemma requires_trans s n m d : requires s n m -> requires s m d -> requires s n d.
Proof.
  induction 1 as [n | n k m Hn Hr IH]; intros H; auto.
  eapply requires_step; eauto.
Qed.

Lemma missing_anti s t d : extends s t -> missing t d -> missing s d.
Proof.
  intros Hext [Hu Hd]. split.
  - eapply extends_uncached; eauto.
  - now rewrite <- (ext_services _ _ Hext).
Qed.

Lemma unresolvable_transport s t x :
  extends s t -> newly_cached_resolvable s t ->
  unresolvable s x -> unresolvable t x.
Proof.
  intros Hext Hnew (d & Hreq & Hmiss).
  induction Hreq as [n | n m d Hneeds Hreq IH].
  - exists n. split; [constructor|]. split.
    + destruct (JsMap.get (singletons (container t)) n) as [v|] eqn:E; [|exact E].
      exfalso. apply (Hnew n); [now exists v | apply Hmiss |].
      exists n. split; [constructor | assumption].
    + rewrite (ext_services _ _ Hext). apply Hmiss.
  - destruct (IH Hmiss) as (d' & Hreq' & Hmiss').
    exists d'. split; auto.
    eapply requires_step; eauto.
    destruct Hneeds as (Hu & cfg & Hcfg & Hc & Hin). split.
    + destruct (JsMap.get (singletons (container t)) n) as [v|] eqn:E; [|exact E].
      exfalso. apply (Hnew n); [now exists v | assumption |].
      exists d. split; auto.
      eapply requires_step; eauto. split; eauto.
    + exists cfg. rewrite (ext_services _ _ Hext). auto.
Qed.

Lemma newly_cached_refl s : newly_cached_resolvable s s.
Proof. intros x [v Hc] Hu. unfold uncached in Hu. congruence. Qed.

Lemma newly_cached_trans s t u :
  extends s t -> newly_cached_resolvable s t -> newly_cached_resolvable t u ->
  newly_cached_resolvable s u.
Proof.
  intros Hext Hst Htu x Hc Hu.
  destruct (JsMap.get (singletons (container t)) x) as [v|] eqn:E.
  - apply Hst; auto. now exists v.
  - intros Hbad. apply (Htu x Hc E).
    eapply unresolvable_transport; eauto.
Qed.

Lemma newly_cached_container s t t' :
  container t' = container t ->
  newly_cached_resolvable s t -> newly_cached_resolvable s t'.
Proof. intros E H x [v Hc] Hu. apply H; auto. exists v. now rewrite <- E. Qed.

(** A described name all of whose needed dependencies can be resolved can
    be resolved. *)
Lemma described_resolvable s n cfg :
  JsMap.get (services (container s)) n = Some cfg ->
  (constructible (sc_implementation cfg) = true ->
   forall d, In d (sc_dependencies cfg) -> ~ unresolvable s d) ->
  ~ unresolvable s n.
Proof.
  intros Hcfg Hdeps (d & Hreq & Hmiss).
  inversion Hreq as [k | k m d' Hneeds Hreq']; subst.
  - destruct Hmiss as [_ Hm]. congruence.
  - destruct Hneeds as (_ & cfg' & Hcfg' & Hc & Hin).
    rewrite Hcfg in Hcfg'. inv Hcfg'.
    apply (Hdeps Hc m Hin). now exists d.
Qed.

Lemma cached_resolvable s n : cached s n -> ~ unresolvable s n.
Proof.
  intros [v Hc] (d & Hreq & Hmiss).
  inversion Hreq as [k | k m d' Hneeds Hreq']; subst.
  - destruct Hmiss as [Hu _]. unfold uncached in Hu. congruence.
  - destruct Hneeds as (Hu & _). unfold uncached in Hu. congruence.
Qed.

Section Soundness.

Variable resolver : string -> M value.
Hypothesis resolver_extends : forall d s r s', resolver d s = (r, s') -> extends s s'.
Hypothesis resolver_sound : forall d s r s', resolver d s = (r, s') -> sound_call d s r s'.

Lemma map_resolve_sound deps : forall s r s',
  map_resolve resolver deps s = (r, s') ->
  newly_cached_resolvable s s'
  /\ (forall vs, r = Returned vs -> forall d, In d deps -> ~ unresolvable s d)
  /\ (forall e, r = Thrown e ->
        exists d d', In d deps /\ e = ServiceNotRegistered d'
                     /\ missing s d' /\ requires s d d').
Proof.
  induction deps as [|d deps IH]; simpl; intros s r s' H.
  - inv H. split; [apply newly_cached_refl|]. split.
    + intros vs _ d [].
    + discriminate.
  - bind_cases H.
    + pose proof (resolver_extends _ _ _ _ E) as Hext.
      destruct (resolver_sound _ _ _ _ E) as (N1 & R1 & _).
      assert (exists r2, map_resolve resolver deps s1 = (r2, s')
                         /\ (forall vs, r = Returned vs -> exists ws, r2 = Returned ws)
                         /\ (forall e, r = Thrown e -> r2 = Thrown e))
        as (r2 & E2 & Hret & Hthr).
      { bind_cases H.
        - inv H. eexists. split; [eassumption|]. split; [eauto | discriminate].
        - eexists. split; [eassumption|]. split; [congruence | congruence].
        - eexists. split; [eassumption|]. split; [congruence | congruence]. }
      destruct (IH _ _ _ E2) as (N2 & R2 & T2).
      split; [eapply newly_cached_trans; eauto|]. split.
      * intros vs Hr d0 [<-|Hin].
        -- eapply R1; eauto.
        -- destruct (Hret _ Hr) as [ws Hws]. intros Hbad.
           apply (R2 _ Hws d0 Hin). eapply unresolvable_transport; eauto.
      * intros e0 Hr. destruct (T2 _ (Hthr _ Hr)) as (d0 & d' & Hin & He & Hm & Hq).
        exists d0, d'. repeat split; auto.
        -- eapply extends_uncached; eauto. apply Hm.
        -- rewrite <- (ext_services _ _ Hext). apply Hm.
        -- eapply requires_mono; eauto.
    + destruct (resolver_sound _ _ _ _ E) as (N1 & _ & T1).
      split; auto. split; [congruence|].
      intros e0 Hr. subst r. inv Hr.
      destruct (T1 _ eq_refl) as (d' & He & Hm & Hq). exists d, d'. auto.
    + destruct (resolver_sound _ _ _ _ E) as (N1 & _ & _).
      split; auto. split; congruence.
Qed.

Lemma createInstance_sound cfg s r s' :
  createInstance resolver cfg s = (r, s') ->
  newly_cached_resolvable s s'
  /\ (forall v, r = Returned v ->
        constructible (sc_implementation cfg) = true ->
        forall d, In d (sc_dependencies cfg) -> ~ unresolvable s d)
  /\ (forall e, r = Thrown e ->
        constructible (sc_implementation cfg) = true
        /\ exists d d', In d (sc_dependencies cfg) /\ e = ServiceNotRegistered d'
                        /\ missing s d' /\ requires s d d').
Proof.
  unfold createInstance. destruct (sc_implementation cfg) as [f|f|w]; intros H.
  - bind_cases H.
    + destruct (map_resolve_sound _ _ _ _ E) as (N & R & _).
      destruct (js_new_spec f a s1) as (v & s2 & A & _ & C & _).
      rewrite A in H. inv H. split; [eapply newly_cached_container; eauto|].
      split; [eauto | discriminate].
    + destruct (map_resolve_sound _ _ _ _ E) as (N & _ & T).
      split; auto. split; [congruence|]. intros e0 Hr. subst r. inv Hr. eauto.
    + destruct (map_resolve_sound _ _ _ _ E) as (N & _ & _).
      split; auto. split; congruence.
  - bind_cases H.
    + destruct (map_resolve_sound _ _ _ _ E) as (N & R & _).
      destruct (js_call_spec f a s1) as (v & s2 & A & _ & C & _).
      rewrite A in H. inv H. split; [eapply newly_cached_container; eauto|].
      split; [eauto | discriminate].
    + destruct (map_resolve_sound _ _ _ _ E) as (N & _ & T).
      split; auto. split; [congruence|]. intros e0 Hr. subst r. inv Hr. eauto.
    + destruct (map_resolve_sound _ _ _ _ E) as (N & _ & _).
      split; auto. split; congruence.
  - inv H. split; [apply newly_cached_refl|]. split; discriminate.
Qed.

End Soundness.

Lemma resolve_sound fuel : forall name s r s',
  resolve fuel name s = (r, s') -> sound_call name s r s'.
Proof.
  induction fuel as [|fuel IH]; intros name s r s' H.
  - inv H. split; [apply newly_cached_refl|]. split; discriminate.
  - rewrite resolve_unfold in H.
    destruct (JsMap.get (singletons (container s)) name) as [w|] eqn:E1.
    { inv H. split; [apply newly_cached_refl|]. split; [|discriminate].
      intros v _. apply cached_resolvable. now exists w. }
    destruct (JsMap.get (services (container s)) name) as [cfg|] eqn:E2.
    2:{ inv H. split; [apply newly_cached_refl|].
        split; [discriminate|]. intros e He. inv He.
        exists name. repeat split; auto. constructor. }
    pose proof (createInstance_sound (resolve fuel) (resolve_extends fuel) IH cfg s)
      as CS.
    assert (Hres : forall v s2,
               createInstance (resolve fuel) cfg s = (Returned v, s2) ->
               ~ unresolvable s name).
    { intros v s2 C. destruct (CS _ _ C) as (_ & R & _).
      eapply described_resolvable; eauto. }
    assert (Hthr : forall e s2,
               createInstance (resolve fuel) cfg s = (Thrown e, s2) ->
               exists d, e = ServiceNotRegistered d /\ missing s d /\ requires s name d).
    { intros e s2 C. destruct (CS _ _ C) as (_ & _ & T).
      destruct (T _ eq_refl) as (Hc & d & d' & Hin & He & Hm & Hq).
      exists d'. repeat split; try apply Hm; auto.
      eapply requires_step; eauto. split; eauto. }
    destruct (sc_singleton cfg).
    + bind_cases H.
      * bind_cases H; try discriminate. inv H. inv E0.
        destruct (CS _ _ E) as (N & _ & _).
        split; [|split; [intros; eapply Hres; eauto | discriminate]].
        intros x [w Hc] Hu. simpl in Hc. rewrite JsMapFacts.get_set in Hc.
        destruct (String.eqb name x) eqn:Ex.
        -- apply String.eqb_eq in Ex. subst x. eapply Hres; eauto.
        -- apply N; auto. now exists w.
      * destruct (CS _ _ E) as (N & _ & _).
        split; auto. split; [congruence|].
        intros e0 He. subst r. inv He. eapply Hthr; eauto.
      * destruct (CS _ _ E) as (N & _ & _).
        split; auto. split; congruence.
    + destruct (CS _ _ H) as (N & _ & _). split; auto. split.
      * intros v Hr. subst r. eapply Hres; eauto.
      * intros e Hr. subst r. eapply Hthr; eauto.
Qed.

(** * Cycles *)

Lemma on_cycle_next s n m : needs s n m -> requires s m n -> on_cycle s m.
Proof.
  intros Hn Hr. destruct Hr as [k | k j d Hk Hj].
  - exists k. split; [assumption | constructor].
  - exists j. split; auto.
    eapply requires_trans; eauto.
    eapply requires_step; eauto. constructor.
Qed.

Section Cycles.

Variable s : state.

Section Walk.

Variable resolver : string -> M value.
Hypothesis resolver_extends : forall d t r t', resolver d t = (r, t') -> extends t t'.
Hypothesis resolver_cycle : forall d t r t',
  extends s t -> cycles_uncached s t -> resolver d t = (r, t') ->
  cycles_uncached s t' /\ (on_cycle s d -> forall v, r <> Returned v).

Lemma map_resolve_cycle deps : forall t r t',
  extends s t -> cycles_uncached s t ->
  map_resolve resolver deps t = (r, t') ->
  cycles_uncached s t'
  /\ (forall m, In m deps -> on_cycle s m -> forall vs, r <> Returned vs).
Proof.
  induction deps as [|d deps IH]; simpl; intros t r t' Hext Hinv H.
  - inv H. split; [auto | intros m []].
  - bind_cases H.
    + destruct (resolver_cycle _ _ _ _ Hext Hinv E) as [Hinv1 Hd].
      assert (Hext1 : extends s s1).
      { eapply extends_trans; eauto. }
      bind_cases H.
      * destruct (IH _ _ _ Hext1 Hinv1 E0) as [Hinv2 Hm]. inv H.
        split; auto. intros m [<-|Hin] Hc vs _.
        -- eapply Hd; eauto.
        -- eapply Hm; eauto.
      * destruct (IH _ _ _ Hext1 Hinv1 E0) as [Hinv2 _]. subst r.
        split; auto. discriminate.
      * destruct (IH _ _ _ Hext1 Hinv1 E0) as [Hinv2 _]. subst r.
        split; auto. discriminate.
    + destruct (resolver_cycle _ _ _ _ Hext Hinv E) as [Hinv1 _]. subst r.
      split; auto. discriminate.
    + destruct (resolver_cycle _ _ _ _ Hext Hinv E) as [Hinv1 _]. subst r.
      split; auto. discriminate.
Qed.

Lemma cycles_uncached_container t t' :
  container t' = container t -> cycles_uncached s t -> cycles_uncached s t'.
Proof. intros E H n Hn. unfold uncached. rewrite E. now apply H. Qed.

Lemma createInstance_cycle cfg t r t' :
  extends s t -> cycles_uncached s t ->
  createInstance resolver cfg t = (r, t') ->
  cycles_uncached s t'
  /\ (constructible (sc_implementation cfg) = true ->
      forall m, In m (sc_dependencies cfg) -> on_cycle s m ->
      forall v, r <> Returned v).
Proof.
  intros Hext Hinv. unfold createInstance.
  destruct (sc_implementation cfg) as [f|f|w]; intros H.
  - bind_cases H.
    + destruct (map_resolve_cycle _ _ _ _ Hext Hinv E) as [Hinv1 Hm].
      destruct (js_new_spec f a s1) as (v & s2 & A & _ & C & _).
      rewrite A in H. inv H. split; [eapply cycles_uncached_container; eauto|].
      intros _ m Hin Hc. exfalso. eapply Hm; eauto.
    + destruct (map_resolve_cycle _ _ _ _ Hext Hinv E) as [Hinv1 _]. subst r.
      split; auto. discriminate.
    + destruct (map_resolve_cycle _ _ _ _ Hext Hinv E) as [Hinv1 _]. subst r.
      split; auto. discriminate.
  - bind_cases H.
    + destruct (map_resolve_cycle _ _ _ _ Hext Hinv E) as [Hinv1 Hm].
      destruct (js_call_spec f a s1) as (v & s2 & A & _ & C & _).
      rewrite A in H. inv H. split; [eapply cycles_uncached_container; eauto|].
      intros _ m Hin Hc. exfalso. eapply Hm; eauto.
    + destruct (map_resolve_cycle _ _ _ _ Hext Hinv E) as [Hinv1 _]. subst r.
      split; auto. discriminate.
    + destruct (map_resolve_cycle _ _ _ _ Hext Hinv E) as [Hinv1 _]. subst r.
      split; auto. discriminate.
  - inv H. split; auto. discriminate.
Qed.

End Walk.

Lemma resolve_cycle fuel : forall n t r t',
  extends s t -> cycles_uncached s t ->
  resolve fuel n t = (r, t') ->
  cycles_uncached s t' /\ (on_cycle s n -> forall v, r <> Returned v).
Proof.
  induction fuel as [|fuel IH]; intros n t r t' Hext Hinv H.
  - inv H. split; auto. discriminate.
  - rewrite resolve_unfold in H.
    destruct (JsMap.get (singletons (container t)) n) as [w|] eqn:E1.
    { inv H. split; auto. intros Hc. apply Hinv in Hc.
      unfold uncached in Hc. congruence. }
    destruct (JsMap.get (services (container t)) n) as [cfg|] eqn:E2.
    2:{ inv H. split; auto. discriminate. }
    assert (Hci : forall r1 t1,
              createInstance (resolve fuel) cfg t = (r1, t1) ->
              cycles_uncached s t1
              /\ (on_cycle s n -> forall v, r1 <> Returned v)).
    { intros r1 t1 C.
      destruct (createInstance_cycle (resolve fuel) (resolve_extends fuel) IH
                  _ _ _ _ Hext Hinv C) as [Hinv1 Hm].
      split; auto. intros (m & (_ & cfg' & Hcfg' & Hc & Hin) & Hreq).
      rewrite <- (ext_services _ _ Hext), E2 in Hcfg'. inv Hcfg'.
      apply (Hm Hc m Hin). eapply on_cycle_next; eauto.
      split; [eapply extends_uncached; eauto|].
      exists cfg'. rewrite <- (ext_services _ _ Hext). auto. }
    destruct (sc_singleton cfg).
    + bind_cases H.
      * destruct (Hci _ _ E) as [Hinv1 Hn].
        bind_cases H; try discriminate. inv H. inv E0. split.
        -- intros k Hk. unfold uncached. simpl.
           rewrite JsMapFacts.get_set_ne; [now apply Hinv1|].
           intros ->. eapply Hn; eauto.
        -- intros Hc. exfalso. eapply Hn; eauto.
      * destruct (Hci _ _ E) as [Hinv1 _]. subst r. split; auto. discriminate.
      * destruct (Hci _ _ E) as [Hinv1 _]. subst r. split; auto. discriminate.
    + eauto.
Qed.

Lemma cycles_uncached_refl : cycles_uncached s s.
Proof. intros n (m & (Hu & _) & _). exact Hu. Qed.

End Cycles.

(** * Checking acyclicity of a given state *)

Lemma get_Some_In {V : Type} (m : JsMap.t V) k v :
  JsMap.get m k = Some v -> In (k, v) m.
Proof.
  induction m as [|[k' v'] m IH]; simpl; [discriminate|].
  destruct (String.eqb k' k) eqn:E.
  - apply String.eqb_eq in E. intros H. inv H. now left.
  - auto.
Qed.

Lemma ranked_by_acyclic rank s : ranked_by rank s = true -> acyclic s.
Proof.
  intros Hr.
  assert (Hedge : forall n d, depends s n d -> registered s d -> rank d < rank n).
  { intros n d (_ & _ & cfg & Hcfg & Hin) [cfg' Hd].
    unfold ranked_by in Hr. rewrite forallb_forall in Hr.
    specialize (Hr _ (get_Some_In _ _ _ Hcfg)). simpl in Hr.
    rewrite forallb_forall in Hr. specialize (Hr _ Hin).
    apply orb_prop in Hr. destruct Hr as [Hr|Hr].
    - unfold JsMap.has in Hr. rewrite Hd in Hr. discriminate.
    - now apply Nat.ltb_lt in Hr. }
  assert (Hsrc : forall n d, path s n d -> registered s n).
  { intros n d Hp. destruct Hp as [n d (_ & _ & cfg & Hcfg & _)
                                  | n m d (_ & _ & cfg & Hcfg & _) _]; now exists cfg. }
  assert (Hpath : forall n d, path s n d -> registered s d -> rank d < rank n).
  { intros n d Hp. induction Hp as [n d Hd | n m d Hnm Hmd IH]; intros Hreg.
    - auto.
    - specialize (IH Hreg). pose proof (Hedge _ _ Hnm (Hsrc _ _ Hmd)). lia. }
  intros n Hp. pose proof (Hpath _ _ Hp (Hsrc _ _ Hp)). lia.
Qed.

(** * The states of the scenario *)

Lemma with_mailer_acyclic : acyclic Scenario.with_mailer.
Proof.
  apply (ranked_by_acyclic
           (position (JsMap.keys (services (container Scenario.with_mailer))))).
  reflexivity.
Qed.

Lemma mailer_unresolvable : unresolvable Scenario.with_mailer "mailer".
Proof.
  exists "smtp". split.
  - eapply requires_step; [|apply requires_refl].
    split; [reflexivity|]. eexists. split; [reflexivity|]. simpl. auto.
  - split; reflexivity.
Qed.

Lemma logger_requirements d :
  requires Scenario.with_mailer "logger" d ->
  registered Scenario.with_mailer d \/ cached Scenario.with_mailer d.
Proof.
  intros H. left.
  inversion H as [k | k m d' (_ & cfg & Hcfg & _ & Hin) Hm]; subst.
  - eexists. reflexivity.
  - inv Hcfg. destruct Hin as [<-|[]].
    inversion Hm as [k | k m' d' (_ & cfg & Hcfg & Hc & _) _]; subst.
    + eexists. reflexivity.
    + inv Hcfg. discriminate.
Qed.

Lemma chicken_resolvable : ~ unresolvable Scenario.cyclic "chicken".
Proof.
  intros (d & Hreq & [Hu Hm]).
  remember "chicken" as c eqn:Ec.
  assert (Hc : c = "chicken" \/ c = "egg" \/ c = "config") by auto.
  clear Ec. induction Hreq as [n | n m x (_ & cfg & Hcfg & _ & Hin) Hx IH].
  - destruct Hc as [->|[->| ->]]; discriminate.
  - apply IH; auto.
    destruct Hc as [->|[->| ->]]; inv Hcfg; simpl in Hin; intuition.
Qed.

(** * The claims *)

(** C1. Singleton identity.  When the descriptor of [name] carries the
    singleton flag (as [registerSingleton] sets it, see
    [registerSingleton_descriptor]) and a call [resolve(name)] returns [v],
    then [v] is the entry of [name] in the singleton cache after that call,
    and after any further registrations, resolutions, factory resolutions
    and queries (no [clear]) a second [resolve(name)] returns the same [v]
    and leaves the whole state as it was: nothing is constructed again. *)
Theorem singleton_identity fuel name cfg s v s1 ops fuel' :
  JsMap.get (services (container s)) name = Some cfg ->
  sc_singleton cfg = true ->
  resolve fuel name s = (Returned v, s1) ->
  clear_free ops = true ->
  JsMap.get (singletons (container s1)) name = Some v
  /\ resolve (S fuel') name (run ops s1) = (Returned v, run ops s1).
Proof.
  intros Hcfg Hsing Hres Hops.
  assert (Hc : JsMap.get (singletons (container s1)) name = Some v).
  { destruct fuel as [|fuel]; [discriminate|]. rewrite resolve_unfold in Hres.
    destruct (JsMap.get (singletons (container s)) name) as [w|] eqn:E1.
    - now inv Hres.
    - rewrite Hcfg, Hsing in Hres.
      bind_cases Hres; try discriminate.
      bind_cases Hres; try discriminate.
      inv Hres. inv E0. simpl. apply JsMapFacts.get_set_eq. }
  split; auto.
  apply resolve_cached. now apply run_keeps_cached.
Qed.

Lemma singleton_identity_witness :
  JsMap.get (singletons (container (snd (resolve 3 "service" Scenario.booted))))
    "service" = Some (VObject 2)
  /\ resolve 1 "service"
       (run [OpResolve 5 "logger"; OpRegister "service" (ImplObject VUndefined) no_options]
            (snd (resolve 3 "service" Scenario.booted)))
     = (Returned (VObject 2),
        run [OpResolve 5 "logger"; OpRegister "service" (ImplObject VUndefined) no_options]
            (snd (resolve 3 "service" Scenario.booted))).
Proof.
  apply (singleton_identity 3 "service"
           {| sc_implementation := ImplClass Scenario.Service; sc_singleton := true;
              sc_dependencies := ["logger"]; sc_factory := false |}
           Scenario.booted (VObject 2) (snd (resolve 3 "service" Scenario.booted))
           [OpResolve 5 "logger"; OpRegister "service" (ImplObject VUndefined) no_options]
           0); reflexivity.
Defined.

(** C2 as stated fails: a value built beforehand, registered by a plain
    [register] without the singleton flag, is handed out by every
    [resolve]; the two results are the same object. *)
Lemma transient_plain_value_is_shared :
  ~ (forall name impl o s fuel1 fuel2 v1 s1 v2 s2,
        opt_singleton o = None ->
        resolve fuel1 name (snd (register name impl o s)) = (Returned v1, s1) ->
        resolve fuel2 name s1 = (Returned v2, s2) ->
        v1 <> v2).
Proof.
  intros H.
  apply (H "config" (ImplObject Scenario.config_object) no_options Scenario.start
           1 1 (VObject 0)
           (snd (register "config" (ImplObject Scenario.config_object) no_options
                   Scenario.start))
           (VObject 0)
           (snd (register "config" (ImplObject Scenario.config_object) no_options
                   Scenario.start)));
    reflexivity.
Qed.

(** C2, amended.  For a descriptor without the singleton flag whose
    implementation is a class or function that creates a new object at each
    invocation, and a name that is not in the singleton cache: two calls of
    [resolve(name)] that return, with any calls in between, return distinct
    objects, and each of the two calls resolves the declared dependencies
    again, in order, before its own invocation of the implementation. *)
Theorem transient_freshness fuel1 fuel2 name cfg s v1 s1 ops v2 s2 :
  JsMap.get (services (container s)) name = Some cfg ->
  uncached s name ->
  sc_singleton cfg = false ->
  creates_new_object (sc_implementation cfg) ->
  resolve (S fuel1) name s = (Returned v1, s1) ->
  JsMap.get (services (container (run ops s1))) name = Some cfg ->
  uncached (run ops s1) name ->
  resolve (S fuel2) name (run ops s1) = (Returned v2, s2) ->
  v1 <> v2
  /\ (exists args1 u1,
        resolved_in_order (resolve fuel1) (sc_dependencies cfg) s args1 u1
        /\ journal s1 = journal u1 ++ invoked (sc_implementation cfg) args1 v1)
  /\ (exists args2 u2,
        resolved_in_order (resolve fuel2) (sc_dependencies cfg) (run ops s1) args2 u2
        /\ journal s2 = journal u2 ++ invoked (sc_implementation cfg) args2 v2).
Proof.
  intros Hcfg Hu Hns Hnew R1 Hcfg' Hu' R2.
  destruct Hnew as [Hc Hnew].
  assert (Hfresh : forall args l, result_of (sc_implementation cfg) args l = VObject l
                                  /\ heap_after (sc_implementation cfg) args l = S l).
  { intros args l. unfold result_of, heap_after. now rewrite Hnew. }
  destruct (proj2 (resolve_uncached_Returned fuel1 name cfg s Hu Hcfg) _ _ R1)
    as (t1 & C1 & J1 & N1 & _).
  destruct (proj2 (createInstance_constructible _ cfg s Hc) _ _ C1)
    as (args1 & u1 & O1 & K1 & _ & V1 & L1).
  destruct (proj2 (resolve_uncached_Returned fuel2 name cfg _ Hu' Hcfg') _ _ R2)
    as (t2 & C2 & J2 & N2 & _).
  destruct (proj2 (createInstance_constructible _ cfg _ Hc) _ _ C2)
    as (args2 & u2 & O2 & K2 & _ & V2 & L2).
  repeat split.
  - rewrite V1, V2. rewrite (proj1 (Hfresh args1 _)), (proj1 (Hfresh args2 _)).
    intros Heq. inv Heq.
    rewrite (proj2 (Hfresh args1 _)) in L1.
    apply map_resolve_in_order in O2.
    apply (map_resolve_extends _ (resolve_extends fuel2)) in O2.
    pose proof (ext_next_loc _ _ O2) as Hle.
    pose proof (run_next_loc ops s1) as Hrun. lia.
  - exists args1, u1. split; auto. congruence.
  - exists args2, u2. split; auto. congruence.
Qed.

Lemma transient_freshness_witness :
  VObject 3 <> VObject 4
  /\ (exists args1 u1,
        resolved_in_order (resolve 3) Scenario.handler_dependencies
          Scenario.with_handler args1 u1
        /\ journal (snd (resolve 4 "handler" Scenario.with_handler))
           = journal u1 ++ invoked (ImplClass Scenario.Handler) args1 (VObject 3))
  /\ (exists args2 u2,
        resolved_in_order (resolve 1) Scenario.handler_dependencies
          (run [OpHas "handler"] (snd (resolve 4 "handler" Scenario.with_handler)))
          args2 u2
        /\ journal
             (snd (resolve 2 "handler"
                     (run [OpHas "handler"]
                        (snd (resolve 4 "handler" Scenario.with_handler)))))
           = journal u2 ++ invoked (ImplClass Scenario.Handler) args2 (VObject 4)).
Proof.
  apply (transient_freshness 3 1 "handler"
           {| sc_implementation := ImplClass Scenario.Handler; sc_singleton := false;
              sc_dependencies := Scenario.handler_dependencies; sc_factory := false |}
           Scenario.with_handler (VObject 3)
           (snd (resolve 4 "handler" Scenario.with_handler))
           [OpHas "handler"] (VObject 4)
           (snd (resolve 2 "handler"
                   (run [OpHas "handler"]
                      (snd (resolve 4 "handler" Scenario.with_handler)))))).
  - reflexivity.
  - reflexivity.
  - reflexivity.
  - split; [reflexivity | intros args; reflexivity].
  - reflexivity.
  - reflexivity.
  - reflexivity.
  - reflexivity.
Defined.

(** C3. Missing service.  For a name with no cache entry and no descriptor
    (whether or not [registerFactory] has been called for it),
    [resolve(name)] throws ServiceNotRegistered for that name, with the
    message that quotes it, and returns nothing.  When [name] transitively
    requires a missing name, no call of [resolve(name)] returns a value: the
    only error it can throw is ServiceNotRegistered for a missing name that
    [name] requires, and on an acyclic dependency graph it does throw it. *)
Theorem missing_service_throws name s :
  (missing s name ->
   forall fuel,
     resolve (S fuel) name s = (Thrown (ServiceNotRegistered name), s)
     /\ message (ServiceNotRegistered name)
        = ("Service '" ++ name ++ "' not registered")%string)
  /\ (missing s name ->
      forall factory deps fuel,
        resolve (S fuel) name (snd (registerFactory name factory deps s))
        = (Thrown (ServiceNotRegistered name),
           snd (registerFactory name factory deps s)))
  /\ (unresolvable s name ->
      forall fuel r s',
        resolve fuel name s = (r, s') ->
        r = OutOfFuel
        \/ exists d, r = Thrown (ServiceNotRegistered d)
                     /\ missing s d /\ requires s name d)
  /\ (unresolvable s name ->
      acyclic s ->
      exists fuel, forall fuel', fuel <= fuel' ->
        exists d s', resolve fuel' name s = (Thrown (ServiceNotRegistered d), s')
                     /\ missing s d /\ requires s name d).
Proof.
  assert (Hpartial : unresolvable s name ->
            forall fuel r s',
              resolve fuel name s = (r, s') ->
              r = OutOfFuel
              \/ exists d, r = Thrown (ServiceNotRegistered d)
                           /\ missing s d /\ requires s name d).
  { intros Hbad fuel r s' H.
    destruct (resolve_sound _ _ _ _ _ H) as (_ & R & T).
    destruct r as [v|e|]; auto.
    - exfalso. eapply R; eauto.
    - right. destruct (T _ eq_refl) as (d & -> & Hm & Hq). eauto. }
  repeat split.
  - now apply resolve_missing.
  - intros Hm factory deps fuel. apply resolve_missing. exact Hm.
  - exact Hpartial.
  - intros Hbad Hac.
    exists (S (List.length (JsMap.keys (services (container s))))).
    intros fuel' Hle.
    destruct (resolve_terminates_acyclic s Hac name fuel') as (r & s' & E & Hr); [lia|].
    destruct (Hpartial Hbad _ _ _ E) as [->|(d & -> & Hm & Hq)]; [congruence|].
    eauto.
Qed.

Lemma missing_service_throws_witness :
  (forall fuel,
      resolve (S fuel) "smtp" Scenario.with_mailer
      = (Thrown (ServiceNotRegistered "smtp"), Scenario.with_mailer)
      /\ message (ServiceNotRegistered "smtp") = "Service 'smtp' not registered")
  /\ exists fuel, forall fuel', fuel <= fuel' ->
       exists d s',
         resolve fuel' "mailer" Scenario.with_mailer
         = (Thrown (ServiceNotRegistered d), s')
         /\ missing Scenario.with_mailer d
         /\ requires Scenario.with_mailer "mailer" d.
Proof.
  split.
  - apply (proj1 (missing_service_throws "smtp" Scenario.with_mailer)).
    split; reflexivity.
  - apply (proj2 (proj2 (proj2 (missing_service_throws "mailer" Scenario.with_mailer)))).
    + exact mailer_unresolvable.
    + exact with_mailer_acyclic.
Defined.

(** C4. Dependency injection order.  For a descriptor with a constructible
    implementation, reached on a cache miss: when the declared dependencies
    are resolved one after the other by [resolve], in declared order, with
    values [args], then [resolve(name)] returns what the implementation
    yields when applied to exactly [args] ([new] for a class, a call for a
    function), and that one invocation on [args] is what it adds to the
    journal; and every returning [resolve(name)] arises that way. *)
Theorem dependencies_injected_in_order fuel name cfg s :
  uncached s name ->
  JsMap.get (services (container s)) name = Some cfg ->
  constructible (sc_implementation cfg) = true ->
  (forall args s1,
      resolved_in_order (resolve fuel) (sc_dependencies cfg) s args s1 ->
      exists v s',
        resolve (S fuel) name s = (Returned v, s')
        /\ v = result_of (sc_implementation cfg) args (next_loc s1)
        /\ journal s' = journal s1 ++ invoked (sc_implementation cfg) args v
        /\ List.length args = List.length (sc_dependencies cfg))
  /\ (forall v s',
        resolve (S fuel) name s = (Returned v, s') ->
        exists args s1,
          resolved_in_order (resolve fuel) (sc_dependencies cfg) s args s1
          /\ v = result_of (sc_implementation cfg) args (next_loc s1)
          /\ journal s' = journal s1 ++ invoked (sc_implementation cfg) args v
          /\ List.length args = List.length (sc_dependencies cfg)).
Proof.
  intros Hu Hcfg Hc.
  destruct (resolve_uncached_Returned fuel name cfg s Hu Hcfg) as [R1 R2].
  destruct (createInstance_constructible (resolve fuel) cfg s Hc) as [C1 C2].
  split.
  - intros args s1 Hrio.
    destruct (C1 _ _ Hrio) as (v & s2 & A & B & _ & V & _).
    destruct (R1 _ _ A) as (s' & A' & B' & _).
    exists v, s'. repeat split; auto.
    + congruence.
    + eapply resolved_in_order_length; eauto.
  - intros v s' H.
    destruct (R2 _ _ H) as (s2 & A & B & _).
    destruct (C2 _ _ A) as (args & s1 & Hrio & B' & _ & V & _).
    exists args, s1. repeat split; auto.
    + congruence.
    + eapply resolved_in_order_length; eauto.
Qed.

Lemma dependencies_injected_in_order_witness :
  exists v s',
    resolve 4 "handler" Scenario.with_handler = (Returned v, s')
    /\ v = VObject 3
    /\ journal s'
       = [ Call Scenario.Logger [VObject 0] (VObject 1);
           New Scenario.Service [VObject 1] (VObject 2) ]
         ++ [New Scenario.Handler [VObject 2; VObject 0; VObject 1] v]
    /\ List.length [VObject 2; VObject 0; VObject 1] = 3.
Proof.
  apply (proj1 (dependencies_injected_in_order 3 "handler"
           {| sc_implementation := ImplClass Scenario.Handler; sc_singleton := false;
              sc_dependencies := Scenario.handler_dependencies; sc_factory := false |}
           Scenario.with_handler eq_refl eq_refl eq_refl)
         [VObject 2; VObject 0; VObject 1]
         (snd (map_resolve (resolve 3) Scenario.handler_dependencies
                 Scenario.with_handler))).
  repeat (eapply rio_cons; [reflexivity|]). apply rio_nil.
Defined.

(** C5 as stated fails on its cycle half: in a declared graph where [A]
    lists [B] and [B] lists [A], none cached, [resolve(A)] need not recurse
    without bound.  Here "settings" is a value built beforehand that
    declares "audit", and "audit" is a class that declares "settings":
    [resolve("settings")] returns the value at depth 1. *)
Lemma declared_cycle_can_return :
  ~ (forall s A B,
        depends s A B -> depends s B A ->
        forall fuel, fst (resolve fuel A s) = OutOfFuel).
Proof.
  intros H.
  specialize (H Scenario.declared_cycle "settings" "audit").
  assert (H1 : depends Scenario.declared_cycle "settings" "audit").
  { split; [reflexivity|]. split; [reflexivity|].
    eexists. split; [reflexivity|]. simpl. auto. }
  assert (H2 : depends Scenario.declared_cycle "audit" "settings").
  { split; [reflexivity|]. split; [reflexivity|].
    eexists. split; [reflexivity|]. simpl. auto. }
  specialize (H H1 H2 1). discriminate.
Qed.

(** The other way out of a declared cycle: a missing name listed before the
    cyclic dependency makes [resolve] throw at once. *)
Example declared_cycle_can_throw :
  depends Scenario.cycle_behind_missing "chicken" "egg"
  /\ depends Scenario.cycle_behind_missing "egg" "chicken"
  /\ resolve 2 "chicken" Scenario.cycle_behind_missing
     = (Thrown (ServiceNotRegistered "smtp"), Scenario.cycle_behind_missing).
Proof.
  repeat split; try reflexivity.
  - eexists. split; [reflexivity|]. simpl. auto.
  - eexists. split; [reflexivity|]. simpl. auto.
Qed.

(** C5, amended.  On a state whose declared dependency graph, restricted
    to the names that are not cached, has no cycle, [resolve(name)] finishes
    once the allowed depth exceeds the number of descriptors: it returns or
    throws, and it returns a value when every name that [name] transitively
    requires is registered or cached.  On a cycle of the recursion (the
    constructible descriptor of [A], not cached, lists [B], and [B] leads
    back to [A] through uncached constructible descriptors) no call of
    [resolve(A)], whatever depth it is allowed, returns a value; the only
    error it can throw is ServiceNotRegistered for a missing name that [A]
    requires, there being no error for a cycle; and when no such name is
    missing the call runs out of every depth. *)
Theorem resolve_termination :
  (forall name s,
      acyclic s ->
      exists fuel, forall fuel', fuel <= fuel' ->
        (exists r s', resolve fuel' name s = (r, s') /\ r <> OutOfFuel)
        /\ ((forall d, requires s name d -> registered s d \/ cached s d) ->
            exists v s', resolve fuel' name s = (Returned v, s')))
  /\ (forall s A B,
        needs s A B -> requires s B A ->
        forall fuel r s',
          resolve fuel A s = (r, s') ->
          (forall v, r <> Returned v)
          /\ (forall e, r = Thrown e ->
                exists d, e = ServiceNotRegistered d
                          /\ missing s d /\ requires s A d)
          /\ (~ unresolvable s A -> r = OutOfFuel)).
Proof.
  split.
  - intros name s Hac.
    exists (S (List.length (JsMap.keys (services (container s))))).
    intros fuel' Hle.
    destruct (resolve_terminates_acyclic s Hac name fuel') as (r & s' & E & Hr); [lia|].
    split; [eauto|].
    intros Hall. destruct (resolve_sound _ _ _ _ _ E) as (_ & _ & T).
    destruct r as [v|e|]; [eauto | | congruence].
    exfalso. destruct (T _ eq_refl) as (d & _ & [Hu Hd] & Hq).
    unfold uncached in Hu.
    destruct (Hall _ Hq) as [[cfg Hc]|[v Hc]]; congruence.
  - intros s A B HAB HBA fuel r s' H.
    destruct (resolve_cycle s fuel A s r s' (extends_refl s)
                (cycles_uncached_refl s) H) as [_ Hnr].
    assert (Hc : on_cycle s A) by (exists B; auto).
    destruct (resolve_sound _ _ _ _ _ H) as (_ & _ & T).
    split; [auto|]. split; [auto|].
    intros Hok. destruct r as [v|e|]; auto.
    + exfalso. eapply Hnr; eauto.
    + exfalso. destruct (T _ eq_refl) as (d & _ & Hm & Hq). apply Hok. now exists d.
Qed.

Lemma resolve_termination_witness :
  (exists fuel, forall fuel', fuel <= fuel' ->
     (exists r s', resolve fuel' "logger" Scenario.with_mailer = (r, s')
                   /\ r <> OutOfFuel)
     /\ (exists v s', resolve fuel' "logger" Scenario.with_mailer = (Returned v, s')))
  /\ (forall fuel r s',
        resolve fuel "chicken" Scenario.cyclic = (r, s') ->
        (forall v, r <> Returned v) /\ r = OutOfFuel).
Proof.
  split.
  - destruct (proj1 resolve_termination "logger" Scenario.with_mailer
                with_mailer_acyclic) as [fuel H].
    exists fuel. intros fuel' Hle. destruct (H fuel' Hle) as [H1 H2].
    split; [exact H1 | exact (H2 logger_requirements)].
  - intros fuel r s' H.
    destruct (proj2 resolve_termination Scenario.cyclic "chicken" "egg") with
      (fuel := fuel) (r := r) (s' := s') as (H1 & _ & H3).
    + split; [reflexivity|]. eexists. split; [reflexivity|]. simpl. auto.
    + eapply requires_step; [|apply requires_refl].
      split; [reflexivity|]. eexists. split; [reflexivity|]. simpl. auto.
    + exact H.
    + split; [exact H1 | exact (H3 chicken_resolvable)].
Defined.

(** C6. [resolveFactory(name)] throws FactoryNotRegistered for [name] when
    the factory table has no entry for it, and never otherwise.  With an
    entry, the declared dependencies are resolved in order by the very
    [resolve] of the container (which reads and fills the singleton cache);
    when they resolve to [args] the call returns what the stored factory
    function yields on [args], one [Call] of that function on [args] is
    added to the journal, and the container is left as the dependency
    resolution left it: the result enters no store.  Every returning call
    arises that way, so each one invokes the factory. *)
Theorem resolveFactory_spec fuel name s :
  (JsMap.get (factories (container s)) name = None ->
   resolveFactory fuel name s = (Thrown (FactoryNotRegistered name), s))
  /\ (forall fc,
        JsMap.get (factories (container s)) name = Some fc ->
        (forall n, fst (resolveFactory fuel name s) <> Thrown (FactoryNotRegistered n))
        /\ (forall args s1,
              resolved_in_order (resolve fuel) (fc_dependencies fc) s args s1 ->
              exists v s2,
                resolveFactory fuel name s = (Returned v, s2)
                /\ v = result_of (ImplFunction (fc_factory fc)) args (next_loc s1)
                /\ journal s2 = journal s1 ++ [Call (fc_factory fc) args v]
                /\ container s2 = container s1)
        /\ (forall v s2,
              resolveFactory fuel name s = (Returned v, s2) ->
              exists args s1,
                resolved_in_order (resolve fuel) (fc_dependencies fc) s args s1
                /\ v = result_of (ImplFunction (fc_factory fc)) args (next_loc s1)
                /\ journal s2 = journal s1 ++ [Call (fc_factory fc) args v]
                /\ container s2 = container s1)).
Proof.
  unfold resolveFactory. split.
  - intros E. now rewrite E.
  - intros fc E. rewrite E. repeat split.
    + intros n H.
      destruct (bind (map_resolve (resolve fuel) (fc_dependencies fc))
                  (fun a => js_call (fc_factory fc) a) s) as [r s'] eqn:R.
      simpl in H. subst r. bind_cases R.
      * destruct (js_call_spec (fc_factory fc) a s1) as (v & s2 & A & _). congruence.
      * inv R. apply map_resolve_Thrown in E0. destruct E0 as (d & s0 & _ & Hd).
        apply resolve_Thrown in Hd. destruct Hd as [d' Hd]. discriminate.
      * discriminate.
    + intros args s1 H. apply map_resolve_in_order in H.
      rewrite (bind_Returned _ _ _ _ _ H).
      destruct (js_call_spec (fc_factory fc) args s1) as (v & s2 & A & B & C & D & _).
      eauto 10.
    + intros v s2 H. bind_cases H; try discriminate.
      destruct (js_call_spec (fc_factory fc) a s1) as (v' & s2' & A & B & C & D & _).
      rewrite A in H. inv H. apply map_resolve_in_order in E0. eauto 10.
Qed.

Lemma resolveFactory_spec_witness :
  resolveFactory 3 "report" Scenario.booted
  = (Thrown (FactoryNotRegistered "report"), Scenario.booted)
  /\ exists v s2,
       resolveFactory 3 "report"
         (snd (registerFactory "report" Scenario.Handler ["service"] Scenario.booted))
       = (Returned v, s2)
       /\ v = VObject 3
       /\ journal s2
          = [ Call Scenario.Logger [VObject 0] (VObject 1);
              New Scenario.Service [VObject 1] (VObject 2) ]
            ++ [Call Scenario.Handler [VObject 2] v]
       /\ container s2
          = container
              (snd (resolve 3 "service"
                      (snd (registerFactory "report" Scenario.Handler ["service"]
                              Scenario.booted)))).
Proof.
  split.
  - apply (proj1 (resolveFactory_spec 3 "report" Scenario.booted)). reflexivity.
  - apply (proj1 (proj2 (proj2 (resolveFactory_spec 3 "report"
             (snd (registerFactory "report" Scenario.Handler ["service"] Scenario.booted)))
             {| fc_factory := Scenario.Handler; fc_dependencies := ["service"] |}
             eq_refl))
           [VObject 2]
           (snd (resolve 3 "service"
                   (snd (registerFactory "report" Scenario.Handler ["service"]
                           Scenario.booted))))).
    eapply rio_cons; [reflexivity|]. apply rio_nil.
Defined.

(** C7. A descriptor whose implementation is a value built beforehand:
    [createInstance] returns that value and leaves the state alone whatever
    the resolver is (the declared dependencies are never handed to it, so
    they may name anything), and [resolve], reaching the descriptor on a
    cache miss, returns the value; the only change is the cache entry of
    [name] when the descriptor is a singleton. *)
Theorem plain_value_returned_unchanged cfg v :
  sc_implementation cfg = ImplObject v ->
  (forall resolver s, createInstance resolver cfg s = (Returned v, s))
  /\ (forall fuel name s,
        uncached s name ->
        JsMap.get (services (container s)) name = Some cfg ->
        resolve (S fuel) name s
        = (Returned v,
           if sc_singleton cfg then snd (cache_singleton name v s) else s)).
Proof.
  intros Himpl.
  assert (HC : forall resolver s, createInstance resolver cfg s = (Returned v, s)).
  { intros resolver s. unfold createInstance. now rewrite Himpl. }
  split; auto.
  intros fuel name s Hu Hcfg.
  rewrite (resolve_construct _ _ _ _ Hu Hcfg).
  destruct (sc_singleton cfg); auto.
  now rewrite (bind_Returned _ _ _ _ _ (HC _ _)).
Qed.

Lemma plain_value_returned_unchanged_witness :
  (forall resolver s,
      createInstance resolver
        {| sc_implementation := ImplObject (VString "test"); sc_singleton := false;
           sc_dependencies := ["never registered"]; sc_factory := false |} s
      = (Returned (VString "test"), s))
  /\ resolve 1 "env"
       (snd (register "env" (ImplObject (VString "test"))
               {| opt_singleton := None;
                  opt_dependencies := Some ["never registered"];
                  opt_factory := None |} initial))
     = (Returned (VString "test"),
        snd (register "env" (ImplObject (VString "test"))
               {| opt_singleton := None;
                  opt_dependencies := Some ["never registered"];
                  opt_factory := None |} initial)).
Proof.
  split.
  - apply (proj1 (plain_value_returned_unchanged
             {| sc_implementation := ImplObject (VString "test"); sc_singleton := false;
                sc_dependencies := ["never registered"]; sc_factory := false |}
             (VString "test") eq_refl)).
  - apply (proj2 (plain_value_returned_unchanged
             {| sc_implementation := ImplObject (VString "test"); sc_singleton := false;
                sc_dependencies := ["never registered"]; sc_factory := false |}
             (VString "test") eq_refl) 0 "env"); reflexivity.
Defined.

(** C8. After [clear()] the three stores are empty; for every name [has]
    returns [false], [resolve] throws ServiceNotRegistered for that name, and
    [getRegisteredServices] returns the empty array. *)
Theorem clear_resets s name fuel :
  fst (clear s) = Returned tt
  /\ container (snd (clear s)) = new_DIContainer
  /\ has name (snd (clear s)) = (Returned false, snd (clear s))
  /\ resolve (S fuel) name (snd (clear s))
     = (Thrown (ServiceNotRegistered name), snd (clear s))
  /\ getRegisteredServices (snd (clear s)) = (Returned [], snd (clear s)).
Proof. repeat split. Qed.

(** C9. [has(name)] returns, without failing, [true] exactly when [name] has
    a descriptor or a factory entry, and the state after the call is the
    state before it: no store changes, nothing is constructed, no cache
    entry appears, whatever [name] denotes. *)
Theorem has_is_a_pure_query name s :
  exists b,
    has name s = (Returned b, s)
    /\ (b = true <->
        (exists cfg, JsMap.get (services (container s)) name = Some cfg)
        \/ (exists fc, JsMap.get (factories (container s)) name = Some fc)).
Proof.
  eexists. split; [reflexivity|].
  rewrite orb_true_iff, !JsMapFacts.has_true. tauto.
Qed.

(** C10. [register] writes the descriptor of [name] and nothing else: the
    singleton cache, the factory table, the other descriptors, the heap and
    the journal are as before.  Hence a name whose instance is cached keeps
    resolving to that instance after it is registered again, with whatever
    implementation and options, and after any later calls but [clear]. *)
Theorem register_keeps_singletons :
  (forall name impl o s,
      let s' := snd (register name impl o s) in
      fst (register name impl o s) = Returned tt
      /\ singletons (container s') = singletons (container s)
      /\ factories (container s') = factories (container s)
      /\ (forall k, k <> name ->
            JsMap.get (services (container s')) k = JsMap.get (services (container s)) k)
      /\ JsMap.get (services (container s')) name
         = Some {| sc_implementation := impl;
                   sc_singleton := or_default (opt_singleton o) false;
                   sc_dependencies := or_default (opt_dependencies o) [];
                   sc_factory := or_default (opt_factory o) false |}
      /\ next_loc s' = next_loc s
      /\ journal s' = journal s)
  /\ (forall name v s impl o ops fuel,
        JsMap.get (singletons (container s)) name = Some v ->
        clear_free ops = true ->
        let s' := run ops (snd (register name impl o s)) in
        resolve (S fuel) name s' = (Returned v, s')).
Proof.
  split.
  - intros name impl o s. simpl. repeat split.
    + intros k Hk. now apply JsMapFacts.get_set_ne.
    + apply JsMapFacts.get_set_eq.
  - intros name v s impl o ops fuel Hc Hops s'.
    apply resolve_cached. subst s'. apply run_keeps_cached; auto.
Qed.

Lemma register_keeps_singletons_witness :
  resolve 1 "service"
    (run [OpResolve 4 "service"]
       (snd (register "service" (ImplObject (VNumber 7)) no_options
               (snd (resolve 3 "service" Scenario.booted)))))
  = (Returned (VObject 2),
     run [OpResolve 4 "service"]
       (snd (register "service" (ImplObject (VNumber 7)) no_options
               (snd (resolve 3 "service" Scenario.booted))))).
Proof.
  apply (proj2 register_keeps_singletons "service" (VObject 2)
           (snd (resolve 3 "service" Scenario.booted))
           (ImplObject (VNumber 7)) no_options [OpResolve 4 "service"] 0);
    reflexivity.
Defined.

(** * Further properties of the container *)

(** ** The outcome does not depend on the depth allowed *)

Section Deeper.

Variables shallow deep : string -> M value.
Hypothesis deep_agrees : forall d s r s',
  shallow d s = (r, s') -> r <> OutOfFuel -> deep d s = (r, s').

Lemma map_resolve_deeper deps : forall s r s',
  map_resolve shallow deps s = (r, s') -> r <> OutOfFuel ->
  map_resolve deep deps s = (r, s').
Proof.
  induction deps as [|d deps IH]; simpl; intros s r s' H Hr; auto.
  bind_cases H.
  - rewrite (bind_Returned _ _ _ _ _ (deep_agrees _ _ _ _ E ltac:(discriminate))).
    bind_cases H.
    + now rewrite (bind_Returned _ _ _ _ _ (IH _ _ _ E0 ltac:(discriminate))).
    + subst r. now rewrite (bind_Thrown _ _ _ _ _ (IH _ _ _ E0 ltac:(discriminate))).
    + congruence.
  - subst r. now rewrite (bind_Thrown _ _ _ _ _ (deep_agrees _ _ _ _ E ltac:(discriminate))).
  - congruence.
Qed.

Lemma createInstance_deeper cfg s r s' :
  createInstance shallow cfg s = (r, s') -> r <> OutOfFuel ->
  createInstance deep cfg s = (r, s').
Proof.
  unfold createInstance. destruct (sc_implementation cfg) as [f|f|w]; intros H Hr; auto.
  - bind_cases H.
    + now rewrite (bind_Returned _ _ _ _ _ (map_resolve_deeper _ _ _ _ E ltac:(discriminate))).
    + subst r.
      now rewrite (bind_Thrown _ _ _ _ _ (map_resolve_deeper _ _ _ _ E ltac:(discriminate))).
    + congruence.
  - bind_cases H.
    + now rewrite (bind_Returned _ _ _ _ _ (map_resolve_deeper _ _ _ _ E ltac:(discriminate))).
    + subst r.
      now rewrite (bind_Thrown _ _ _ _ _ (map_resolve_deeper _ _ _ _ E ltac:(discriminate))).
    + congruence.
Qed.

End Deeper.

Lemma resolve_deeper fuel : forall fuel' name s r s',
  fuel <= fuel' ->
  resolve fuel name s = (r, s') -> r <> OutOfFuel ->
  resolve fuel' name s = (r, s').
Proof.
  induction fuel as [|fuel IH]; intros fuel' name s r s' Hle H Hr.
  - inv H. congruence.
  - destruct fuel' as [|fuel']; [lia|].
    rewrite resolve_unfold in H. rewrite resolve_unfold.
    destruct (JsMap.get (singletons (container s)) name) as [w|]; auto.
    destruct (JsMap.get (services (container s)) name) as [cfg|]; auto.
    assert (Hci : forall r1 s1,
              createInstance (resolve fuel) cfg s = (r1, s1) -> r1 <> OutOfFuel ->
              createInstance (resolve fuel') cfg s = (r1, s1)).
    { intros r1 s1. apply createInstance_deeper.
      intros d t r2 t'. apply IH. lia. }
    destruct (sc_singleton cfg); auto.
    bind_cases H.
    + now rewrite (bind_Returned _ _ _ _ _ (Hci _ _ E ltac:(discriminate))).
    + subst r. now rewrite (bind_Thrown _ _ _ _ _ (Hci _ _ E ltac:(discriminate))).
    + congruence.
Qed.

(** X1. Once [resolve(name)] or [resolveFactory(name)] has returned or
    thrown within some depth, it does the same, with the same final state,
    within every larger depth. *)
Theorem outcome_independent_of_depth fuel fuel' name s :
  fuel <= fuel' ->
  (fst (resolve fuel name s) <> OutOfFuel ->
   resolve fuel' name s = resolve fuel name s)
  /\ (fst (resolveFactory fuel name s) <> OutOfFuel ->
      resolveFactory fuel' name s = resolveFactory fuel name s).
Proof.
  intros Hle. split.
  - destruct (resolve fuel name s) as [r s'] eqn:E. simpl. intros Hr.
    eapply resolve_deeper; eauto.
  - unfold resolveFactory.
    destruct (JsMap.get (factories (container s)) name) as [fc|]; auto.
    destruct (bind (map_resolve (resolve fuel) (fc_dependencies fc))
                (fun a => js_call (fc_factory fc) a) s) as [r s'] eqn:E.
    simpl. intros Hr.
    assert (Hm : forall r1 s1,
              map_resolve (resolve fuel) (fc_dependencies fc) s = (r1, s1) ->
              r1 <> OutOfFuel ->
              map_resolve (resolve fuel') (fc_dependencies fc) s = (r1, s1)).
    { intros r1 s1. apply map_resolve_deeper.
      intros d t r2 t'. now apply resolve_deeper. }
    bind_cases E.
    + now rewrite (bind_Returned _ _ _ _ _ (Hm _ _ E0 ltac:(discriminate))).
    + subst r. now rewrite (bind_Thrown _ _ _ _ _ (Hm _ _ E0 ltac:(discriminate))).
    + congruence.
Qed.

Lemma outcome_independent_of_depth_witness :
  resolve 9 "service" Scenario.booted = resolve 3 "service" Scenario.booted
  /\ resolveFactory 9 "report"
       (snd (registerFactory "report" Scenario.Handler ["service"] Scenario.booted))
     = resolveFactory 3 "report"
         (snd (registerFactory "report" Scenario.Handler ["service"] Scenario.booted)).
Proof.
  split.
  - apply (proj1 (outcome_independent_of_depth 3 9 "service" Scenario.booted
                    ltac:(lia))).
    discriminate.
  - apply (proj2 (outcome_independent_of_depth 3 9 "report"
                    (snd (registerFactory "report" Scenario.Handler ["service"]
                            Scenario.booted))
                    ltac:(lia))).
    discriminate.
Defined.

(** ** What [resolve] and [resolveFactory] leave alone *)

(** X2. Whatever its outcome, [resolve(name)] leaves the service store and
    the factory table as they were, keeps every entry of the singleton cache
    with its value, never lowers the heap counter, and only appends to the
    journal of invocations. *)
Theorem resolve_frame fuel name s :
  services (container (snd (resolve fuel name s))) = services (container s)
  /\ factories (container (snd (resolve fuel name s))) = factories (container s)
  /\ (forall k v,
        JsMap.get (singletons (container s)) k = Some v ->
        JsMap.get (singletons (container (snd (resolve fuel name s)))) k = Some v)
  /\ next_loc s <= next_loc (snd (resolve fuel name s))
  /\ exists l, journal (snd (resolve fuel name s)) = journal s ++ l.
Proof.
  destruct (resolve fuel name s) as [r s'] eqn:E. simpl.
  destruct (resolve_extends _ _ _ _ _ E) as [A B C D F]. auto.
Qed.

(** X3. Whatever its outcome, [resolveFactory(name)] leaves the service
    store and the factory table as they were and keeps every entry of the
    singleton cache with its value; the heap counter never goes down and the
    journal is only appended to. *)
Theorem resolveFactory_frame fuel name s :
  services (container (snd (resolveFactory fuel name s))) = services (container s)
  /\ factories (container (snd (resolveFactory fuel name s)))
     = factories (container s)
  /\ (forall k v,
        JsMap.get (singletons (container s)) k = Some v ->
        JsMap.get (singletons (container (snd (resolveFactory fuel name s)))) k
        = Some v)
  /\ next_loc s <= next_loc (snd (resolveFactory fuel name s))
  /\ exists l, journal (snd (resolveFactory fuel name s)) = journal s ++ l.
Proof.
  destruct (resolveFactory fuel name s) as [r s'] eqn:E. simpl.
  destruct (resolveFactory_extends _ _ _ _ _ E) as [A B C D F]. auto.
Qed.

(** ** The factory table plays no part in [resolve] *)

Section Factories.

Variable F : JsMap.t factoryConfig.

Lemma bind_factories {A B : Type} (m : M A) (k : A -> M B) s :
  m (with_factories F s) = on_factories F (m s) ->
  (forall a t, k a (with_factories F t) = on_factories F (k a t)) ->
  bind m k (with_factories F s) = on_factories F (bind m k s).
Proof.
  intros Hm Hk. unfold bind. rewrite Hm.
  destruct (m s) as [[a|e|] t]; simpl; auto.
Qed.

Lemma js_new_factories f args s :
  js_new f args (with_factories F s) = on_factories F (js_new f args s).
Proof. unfold js_new, invoke. now destruct (new_yield (f args)). Qed.

Lemma js_call_factories f args s :
  js_call f args (with_factories F s) = on_factories F (js_call f args s).
Proof. unfold js_call, invoke. now destruct (f args). Qed.

Section Walk.

Variable resolver : string -> M value.
Hypothesis resolver_factories : forall d s,
  resolver d (with_factories F s) = on_factories F (resolver d s).

Lemma map_resolve_factories deps : forall s,
  map_resolve resolver deps (with_factories F s)
  = on_factories F (map_resolve resolver deps s).
Proof.
  induction deps as [|d deps IH]; simpl; intros s; auto.
  apply bind_factories; auto.
  intros v t. apply bind_factories; auto.
Qed.

Lemma createInstance_factories cfg s :
  createInstance resolver cfg (with_factories F s)
  = on_factories F (createInstance resolver cfg s).
Proof.
  unfold createInstance. destruct (sc_implementation cfg) as [f|f|w]; auto.
  - apply bind_factories; [apply map_resolve_factories|].
    intros a t. apply js_new_factories.
  - apply bind_factories; [apply map_resolve_factories|].
    intros a t. apply js_call_factories.
Qed.

End Walk.

Lemma resolve_factories fuel : forall name s,
  resolve fuel name (with_factories F s) = on_factories F (resolve fuel name s).
Proof.
  induction fuel as [|fuel IH]; intros name s; auto.
  rewrite !resolve_unfold. simpl.
  destruct (JsMap.get (singletons (container s)) name) as [w|]; auto.
  destruct (JsMap.get (services (container s)) name) as [cfg|]; auto.
  destruct (sc_singleton cfg).
  - apply bind_factories; [now apply createInstance_factories|].
    intros a t. apply bind_factories; auto.
  - now apply createInstance_factories.
Qed.

End Factories.

(** X4. [resolve] neither reads nor writes the factory table: on two states
    that differ in the factory table only it has the same outcome and final
    states that differ in the factory table only.  In particular a
    [registerFactory] before a [resolve] can as well be made after it. *)
Theorem resolve_ignores_factories fuel name s :
  (forall F,
      resolve fuel name (with_factories F s)
      = (fst (resolve fuel name s), with_factories F (snd (resolve fuel name s))))
  /\ (forall k factory deps,
        resolve fuel name (snd (registerFactory k factory deps s))
        = (fst (resolve fuel name s),
           snd (registerFactory k factory deps (snd (resolve fuel name s))))).
Proof.
  split.
  - intros F. apply resolve_factories.
  - intros k factory deps.
    change (snd (registerFactory k factory deps s))
      with (with_factories
              (JsMap.set (factories (container s)) k
                 {| fc_factory := factory; fc_dependencies := deps |}) s).
    rewrite resolve_factories. unfold on_factories. f_equal.
    destruct (resolve fuel name s) as [r s'] eqn:E. simpl.
    apply resolve_extends in E. unfold with_factories.
    now rewrite (ext_factories _ _ E).
Qed.

(** ** Which names a resolution caches *)

Lemma newly_cached_split s t u x :
  newly_cached s u x -> newly_cached s t x \/ newly_cached t u x.
Proof.
  intros [Hu Hc].
  destruct (JsMap.get (singletons (container t)) x) as [v|] eqn:E.
  - left. split; auto. now exists v.
  - right. split; auto.
Qed.

Lemma newly_cached_same s x : ~ newly_cached s s x.
Proof. intros [Hu [v Hc]]. unfold uncached in Hu. congruence. Qed.

Lemma newly_cached_same_container s t t' x :
  container t' = container t -> newly_cached s t' x -> newly_cached s t x.
Proof. intros E [Hu [v Hc]]. split; auto. exists v. now rewrite <- E. Qed.

Section Footprint.

Variable resolver : string -> M value.
Hypothesis resolver_extends : forall d s r s', resolver d s = (r, s') -> extends s s'.
Hypothesis resolver_footprint : forall d s r s' x,
  resolver d s = (r, s') -> newly_cached s s' x ->
  requires s d x /\ singleton_flagged s x.

Lemma map_resolve_footprint deps : forall s r s' x,
  map_resolve resolver deps s = (r, s') -> newly_cached s s' x ->
  (exists d, In d deps /\ requires s d x) /\ singleton_flagged s x.
Proof.
  induction deps as [|d deps IH]; simpl; intros s r s' x H Hx.
  - inv H. now apply newly_cached_same in Hx.
  - assert (Hhead : forall r1 t, resolver d s = (r1, t) -> newly_cached s t x ->
                      (exists d0, (d = d0 \/ In d0 deps) /\ requires s d0 x)
                      /\ singleton_flagged s x).
    { intros r1 t E Hn. destruct (resolver_footprint _ _ _ _ _ E Hn). eauto. }
    bind_cases H; eauto.
    pose proof (resolver_extends _ _ _ _ E) as Hext.
    assert (Htail : newly_cached s1 s' x ->
                    forall r2, map_resolve resolver deps s1 = (r2, s') ->
                    (exists d0, (d = d0 \/ In d0 deps) /\ requires s d0 x)
                    /\ singleton_flagged s x).
    { intros Hn r2 E2. destruct (IH _ _ _ _ E2 Hn) as [(d0 & Hin & Hq) (cfg & Hc & Hs)].
      split.
      - exists d0. split; auto. eapply requires_mono; eauto.
      - exists cfg. rewrite <- (ext_services _ _ Hext). auto. }
    bind_cases H.
    + inv H. destruct (newly_cached_split _ s1 _ _ Hx); eauto.
    + destruct (newly_cached_split _ s1 _ _ Hx); eauto.
    + destruct (newly_cached_split _ s1 _ _ Hx); eauto.
Qed.

Lemma createInstance_footprint cfg s r s' x :
  createInstance resolver cfg s = (r, s') -> newly_cached s s' x ->
  constructible (sc_implementation cfg) = true
  /\ (exists d, In d (sc_dependencies cfg) /\ requires s d x)
  /\ singleton_flagged s x.
Proof.
  unfold createInstance. destruct (sc_implementation cfg) as [f|f|w]; intros H Hx.
  - split; auto. bind_cases H; try (eapply map_resolve_footprint; eassumption).
    destruct (js_new_spec f a s1) as (v & s2 & A & _ & C & _).
    rewrite A in H. inv H.
    eapply map_resolve_footprint; eauto. eapply newly_cached_same_container; eauto.
  - split; auto. bind_cases H; try (eapply map_resolve_footprint; eassumption).
    destruct (js_call_spec f a s1) as (v & s2 & A & _ & C & _).
    rewrite A in H. inv H.
    eapply map_resolve_footprint; eauto. eapply newly_cached_same_container; eauto.
  - inv H. now apply newly_cached_same in Hx.
Qed.

End Footprint.

Lemma resolve_footprint fuel : forall name s r s' x,
  resolve fuel name s = (r, s') -> newly_cached s s' x ->
  requires s name x /\ singleton_flagged s x.
Proof.
  induction fuel as [|fuel IH]; intros name s r s' x H Hx.
  - inv H. now apply newly_cached_same in Hx.
  - rewrite resolve_unfold in H.
    destruct (JsMap.get (singletons (container s)) name) as [w|] eqn:E1.
    { inv H. now apply newly_cached_same in Hx. }
    destruct (JsMap.get (services (container s)) name) as [cfg|] eqn:E2.
    2:{ inv H. now apply newly_cached_same in Hx. }
    assert (Hci : forall r1 s1,
              createInstance (resolve fuel) cfg s = (r1, s1) -> newly_cached s s1 x ->
              requires s name x /\ singleton_flagged s x).
    { intros r1 s1 C Hn.
      destruct (createInstance_footprint _ (resolve_extends fuel) IH _ _ _ _ _ C Hn)
        as (Hc & (d & Hin & Hq) & Hs).
      split; auto. eapply requires_step; eauto. split; eauto. }
    destruct (sc_singleton cfg) eqn:Es; eauto.
    bind_cases H; eauto.
    bind_cases H; try discriminate. inv H. inv E0.
    destruct Hx as [Hu [w Hc]]. simpl in Hc. rewrite JsMapFacts.get_set in Hc.
    destruct (String.eqb name x) eqn:Ex.
    + apply String.eqb_eq in Ex. subst x. split; [constructor|].
      exists cfg. auto.
    + eapply Hci; eauto. split; auto. now exists w.
Qed.

(** X5. Footprint of [resolve].  A name that enters the singleton cache
    during [resolve(name)], whatever the outcome, is [name] or a name that
    [name] transitively requires, and its descriptor carries the singleton
    flag: resolving one service caches no unrelated service and never caches
    a transient one. *)
Theorem resolve_caches_only_required_singletons fuel name s x :
  uncached s x ->
  cached (snd (resolve fuel name s)) x ->
  requires s name x
  /\ exists cfg, JsMap.get (services (container s)) x = Some cfg
                 /\ sc_singleton cfg = true.
Proof.
  intros Hu Hc. destruct (resolve fuel name s) as [r s'] eqn:E.
  eapply resolve_footprint; eauto. split; auto.
Qed.

Lemma resolve_caches_only_required_singletons_witness :
  requires Scenario.booted "service" "logger"
  /\ exists cfg, JsMap.get (services (container Scenario.booted)) "logger" = Some cfg
                 /\ sc_singleton cfg = true.
Proof.
  apply (resolve_caches_only_required_singletons 3 "service" Scenario.booted "logger").
  - reflexivity.
  - exists (VObject 1). reflexivity.
Defined.

(** X6. A [resolve(name)] that does not return a value (it throws, or does
    not finish) leaves [name] out of the singleton cache, though it may have
    cached dependencies resolved before the failure. *)
Theorem failed_resolve_caches_nothing_for_name fuel name s :
  uncached s name ->
  (forall v, fst (resolve fuel name s) <> Returned v) ->
  uncached (snd (resolve fuel name s)) name.
Proof.
  intros Hu Hr. destruct (resolve fuel name s) as [r s'] eqn:E. simpl in *.
  destruct (JsMap.get (singletons (container s')) name) as [w|] eqn:Ec; [|exact Ec].
  exfalso.
  destruct fuel as [|fuel]; [inv E; unfold uncached in Hu; congruence|].
  pose proof E as E'. rewrite resolve_unfold in E. rewrite Hu in E.
  destruct (JsMap.get (services (container s)) name) as [cfg|] eqn:E2.
  2:{ inv E. unfold uncached in Hu. congruence. }
  assert (Hci : forall r1, createInstance (resolve fuel) cfg s = (r1, s') -> False).
  { intros r1 C.
    destruct (createInstance_footprint _ (resolve_extends fuel) (resolve_footprint fuel)
                cfg s r1 s' name C) as (Hc & (d & Hin & Hq) & _).
    { split; auto. now exists w. }
    assert (Hcyc : on_cycle s name).
    { exists d. split; auto. split; eauto. }
    destruct (resolve_cycle s _ _ _ _ _ (extends_refl s) (cycles_uncached_refl s) E')
      as [Hinv _].
    specialize (Hinv _ Hcyc). unfold uncached in Hinv. congruence. }
  destruct (sc_singleton cfg); eauto.
  bind_cases E; eauto.
  bind_cases E; try discriminate. inv E. eapply Hr; eauto.
Qed.

Lemma failed_resolve_caches_nothing_for_name_witness :
  uncached (snd (resolve 4 "mailer" Scenario.with_mailer)) "mailer"
  /\ cached (snd (resolve 4 "mailer" Scenario.with_mailer)) "logger".
Proof.
  split.
  - apply (failed_resolve_caches_nothing_for_name 4 "mailer" Scenario.with_mailer).
    + reflexivity.
    + intros v. discriminate.
  - exists (VObject 1). reflexivity.
Defined.

(** ** Invariants of the states a caller can reach *)

Lemma resolve_cache_described fuel name s :
  cache_described s -> cache_described (snd (resolve fuel name s)).
Proof.
  intros Hinv x Hc. destruct (resolve fuel name s) as [r s'] eqn:E. simpl in *.
  pose proof (resolve_extends _ _ _ _ _ E) as Hext.
  unfold registered. rewrite (ext_services _ _ Hext).
  destruct (JsMap.get (singletons (container s)) x) as [v|] eqn:Ex.
  - apply Hinv. now exists v.
  - destruct (resolve_footprint _ _ _ _ _ x E) as [_ (cfg & Hcfg & _)]; eauto.
    split; auto.
Qed.

Lemma resolveFactory_cache_described fuel name s :
  cache_described s -> cache_described (snd (resolveFactory fuel name s)).
Proof.
  intros Hinv x Hc. destruct (resolveFactory fuel name s) as [r s'] eqn:E. simpl in *.
  pose proof (resolveFactory_extends _ _ _ _ _ E) as Hext.
  unfold registered. rewrite (ext_services _ _ Hext).
  destruct (JsMap.get (singletons (container s)) x) as [v|] eqn:Ex.
  { apply Hinv. now exists v. }
  unfold resolveFactory in E.
  destruct (JsMap.get (factories (container s)) name) as [fc|].
  2:{ inv E. destruct Hc as [v Hv]. congruence. }
  assert (Hm : forall r1 s1,
            map_resolve (resolve fuel) (fc_dependencies fc) s = (r1, s1) ->
            cached s1 x ->
            exists cfg, JsMap.get (services (container s)) x = Some cfg).
  { intros r1 s1 Em Hc1.
    destruct (map_resolve_footprint _ (resolve_extends fuel) (resolve_footprint fuel)
                _ _ _ _ x Em) as [_ (cfg & Hcfg & _)]; eauto.
    split; auto. }
  bind_cases E; eauto.
  destruct (js_call_spec (fc_factory fc) a s1) as (v & s2 & A & _ & C & _).
  rewrite A in E. inv E. eapply Hm; eauto.
  destruct Hc as [w Hw]. exists w. now rewrite <- C.
Qed.

Lemma exec_cache_described o s : cache_described s -> cache_described (exec o s).
Proof.
  intros Hinv. destruct o; simpl; auto.
  - intros x Hc. destruct (Hinv x Hc) as [cfg Hcfg]. unfold registered. simpl.
    rewrite JsMapFacts.get_set. destruct (String.eqb name x); eauto.
  - intros x Hc. destruct (Hinv x Hc) as [cfg Hcfg]. unfold registered. simpl.
    rewrite JsMapFacts.get_set. destruct (String.eqb name x); eauto.
  - now apply resolve_cache_described.
  - now apply resolveFactory_cache_described.
  - intros x [v Hv]. discriminate.
Qed.

Lemma keys_set {V : Type} (m : JsMap.t V) k v :
  JsMap.keys (JsMap.set m k v)
  = if JsMap.has m k then JsMap.keys m else JsMap.keys m ++ [k].
Proof.
  unfold JsMap.has. induction m as [|[k' v'] m IH]; simpl; auto.
  destruct (String.eqb k' k) eqn:E; simpl; auto.
  rewrite IH. now destruct (JsMap.get m k).
Qed.

Lemma keys_In {V : Type} (m : JsMap.t V) k :
  In k (JsMap.keys m) <-> exists v, JsMap.get m k = Some v.
Proof.
  split.
  - induction m as [|[k' v'] m IH]; simpl; [tauto|].
    destruct (String.eqb k' k) eqn:E; eauto.
    intros [Hk|Hk]; auto. subst. now rewrite String.eqb_refl in E.
  - intros [v Hv]. eapply JsMapFacts.get_Some_keys; eauto.
Qed.

Lemma keys_set_NoDup {V : Type} (m : JsMap.t V) k v :
  NoDup (JsMap.keys m) -> NoDup (JsMap.keys (JsMap.set m k v)).
Proof.
  intros Hnd. rewrite keys_set. unfold JsMap.has.
  destruct (JsMap.get m k) as [w|] eqn:E; auto.
  apply NoDup_app; auto.
  - constructor; [intros []|constructor].
  - intros x Hx [<-|[]]. apply keys_In in Hx. destruct Hx as [w Hw]. congruence.
Qed.

Lemma exec_keys_NoDup o s :
  NoDup (JsMap.keys (services (container s))) ->
  NoDup (JsMap.keys (services (container (exec o s)))).
Proof.
  intros Hnd. destruct o; simpl; auto.
  - now apply keys_set_NoDup.
  - now apply keys_set_NoDup.
  - destruct (resolve fuel name s) as [r s'] eqn:E. simpl.
    now rewrite (ext_services _ _ (resolve_extends _ _ _ _ _ E)).
  - destruct (resolveFactory fuel name s) as [r s'] eqn:E. simpl.
    now rewrite (ext_services _ _ (resolveFactory_extends _ _ _ _ _ E)).
  - constructor.
Qed.

(** X7. In every state reached from a newly constructed container by any
    sequence of calls of its methods, [clear] included, every name in the
    singleton cache has a descriptor in the service store. *)
Theorem cached_names_are_registered ops s0 name :
  fresh_container s0 ->
  cached (run ops s0) name ->
  registered (run ops s0) name.
Proof.
  intros Hnew. revert name.
  assert (H0 : cache_described s0).
  { intros x [v Hv]. unfold fresh_container in Hnew. rewrite Hnew in Hv. discriminate. }
  clear Hnew. revert s0 H0.
  induction ops as [|o ops IH]; simpl; intros s0 H0; auto.
  apply IH. now apply exec_cache_described.
Qed.

Lemma cached_names_are_registered_witness :
  registered
    (run [OpResolve 3 "service";
          OpRegister "logger" (ImplObject VUndefined) no_options]
         (run Scenario.bootstrap Scenario.start))
    "logger".
Proof.
  apply (cached_names_are_registered
           (Scenario.bootstrap
              ++ [OpResolve 3 "service";
                  OpRegister "logger" (ImplObject VUndefined) no_options])
           Scenario.start "logger").
  - reflexivity.
  - exists (VObject 1). reflexivity.
Defined.

(** X8. Registration order.  [register] on a name that already has a
    descriptor leaves the list of [getRegisteredServices] as it is (the
    name keeps its place); on a new name it appends the name at the end.
    The list holds exactly the names with a descriptor, and in every state
    reached from a newly constructed container no name occurs in it twice. *)
Theorem registered_names_in_order :
  (forall name impl o s,
      fst (getRegisteredServices (snd (register name impl o s)))
      = Returned
          (if JsMap.has (services (container s)) name
           then JsMap.keys (services (container s))
           else JsMap.keys (services (container s)) ++ [name]))
  /\ (forall name s names,
        fst (getRegisteredServices s) = Returned names ->
        (In name names <-> registered s name))
  /\ (forall ops s0 names,
        fresh_container s0 ->
        fst (getRegisteredServices (run ops s0)) = Returned names ->
        NoDup names).
Proof.
  repeat split.
  - intros name impl o s. simpl. now rewrite keys_set.
  - inv H. apply keys_In.
  - inv H. apply keys_In.
  - intros ops s0 names Hnew H. inv H.
    assert (H0 : NoDup (JsMap.keys (services (container s0)))).
    { unfold fresh_container in Hnew. rewrite Hnew. constructor. }
    clear Hnew. revert s0 H0.
    induction ops as [|o ops IH]; simpl; intros s0 H0; auto.
    apply IH. now apply exec_keys_NoDup.
Qed.

Lemma registered_names_in_order_witness :
  (In "logger" ["config"; "logger"; "service"]
   <-> registered Scenario.booted "logger")
  /\ NoDup ["config"; "logger"; "service"].
Proof.
  split.
  - apply (proj1 (proj2 registered_names_in_order) "logger" Scenario.booted).
    reflexivity.
  - apply (proj2 (proj2 registered_names_in_order) Scenario.bootstrap Scenario.start).
    + reflexivity.
    + reflexivity.
Defined.

(** ** Injected singletons are the cached ones *)

Lemma resolve_shared_cached fuel name s v s' :
  shared s name ->
  resolve fuel name s = (Returned v, s') ->
  JsMap.get (singletons (container s')) name = Some v.
Proof.
  intros Hsh H. destruct fuel as [|fuel]; [discriminate|].
  rewrite resolve_unfold in H.
  destruct (JsMap.get (singletons (container s)) name) as [w|] eqn:E1.
  { now inv H. }
  destruct Hsh as [[w Hw]|(cfg & Hcfg & Hs)]; [congruence|].
  rewrite Hcfg, Hs in H.
  bind_cases H; try discriminate.
  bind_cases H; try discriminate.
  inv H. inv E0. simpl. apply JsMapFacts.get_set_eq.
Qed.

Lemma shared_extends s t name : extends s t -> shared s name -> shared t name.
Proof.
  intros Hext [[v Hv]|(cfg & Hcfg & Hs)].
  - left. exists v. now apply (ext_singletons _ _ Hext).
  - right. exists cfg. rewrite (ext_services _ _ Hext). auto.
Qed.

Lemma resolved_in_order_extends fuel deps s args s1 :
  resolved_in_order (resolve fuel) deps s args s1 -> extends s s1.
Proof.
  intros H. apply map_resolve_in_order in H.
  eapply map_resolve_extends; eauto. apply resolve_extends.
Qed.

Lemma resolved_in_order_shared fuel deps s args s1 :
  resolved_in_order (resolve fuel) deps s args s1 ->
  Forall2 (fun d a => shared s d ->
                      JsMap.get (singletons (container s1)) d = Some a)
          deps args.
Proof.
  induction 1 as [s | d deps s v t vs s1 Hd Hrest IH]; constructor.
  - intros Hsh.
    apply (ext_singletons _ _ (resolved_in_order_extends _ _ _ _ _ Hrest)).
    eapply resolve_shared_cached; eauto.
  - eapply Forall2_impl; [|exact IH]. simpl. intros d' a' Himp Hsh.
    apply Himp. eapply shared_extends; eauto. eapply resolve_extends; eauto.
Qed.

(** X9. Shared dependencies.  When [resolve(name)] constructs an instance
    (cache miss, constructible implementation) and returns, the argument it
    passed for each dependency that is cached or singleton-flagged is the
    very value that [resolve] of that dependency returns afterwards, right
    away and after any further calls of the container's methods other than
    [clear]. *)
Theorem injected_singletons_are_shared fuel name cfg s v s' :
  uncached s name ->
  JsMap.get (services (container s)) name = Some cfg ->
  constructible (sc_implementation cfg) = true ->
  resolve (S fuel) name s = (Returned v, s') ->
  exists args l,
    journal s' = l ++ invoked (sc_implementation cfg) args v
    /\ Forall2 (fun d a => shared s d ->
                           forall ops fuel',
                             clear_free ops = true ->
                             resolve (S fuel') d (run ops s')
                             = (Returned a, run ops s'))
               (sc_dependencies cfg) args.
Proof.
  intros Hu Hcfg Hc H.
  destruct (proj2 (resolve_uncached_Returned fuel name cfg s Hu Hcfg) _ _ H)
    as (s2 & C & J & N & Hs').
  destruct (proj2 (createInstance_constructible _ cfg s Hc) _ _ C)
    as (args & s1 & O & K & Hcont & V & L).
  exists args, (journal s1). split; [congruence|].
  eapply Forall2_impl; [|exact (resolved_in_order_shared _ _ _ _ _ O)].
  simpl. intros d a Himp Hsh ops fuel' Hops. apply resolve_cached.
  apply run_keeps_cached; auto.
  specialize (Himp Hsh).
  assert (Hs2 : JsMap.get (singletons (container s2)) d = Some a) by now rewrite Hcont.
  destruct (sc_singleton cfg); subst s'; auto.
  simpl. rewrite JsMapFacts.get_set.
  destruct (String.eqb name d) eqn:E; auto.
  apply String.eqb_eq in E. subst d. exfalso.
  assert (Hu2 : uncached s2 name).
  { destruct (JsMap.get (singletons (container s2)) name) as [w|] eqn:Ew; [|exact Ew].
    exfalso.
    destruct (createInstance_footprint _ (resolve_extends fuel) (resolve_footprint fuel)
                cfg s _ s2 name C) as (_ & (d & Hin & Hq) & _).
    { split; auto. now exists w. }
    assert (Hcyc : on_cycle s name).
    { exists d. split; auto. split; eauto. }
    destruct (resolve_cycle s _ _ _ _ _ (extends_refl s) (cycles_uncached_refl s) H)
      as [_ Hnr].
    eapply Hnr; eauto. }
  unfold uncached in Hu2. congruence.
Qed.

Lemma injected_singletons_are_shared_witness :
  exists args l,
    journal (snd (resolve 3 "service" Scenario.booted))
    = l ++ invoked (ImplClass Scenario.Service) args (VObject 2)
    /\ Forall2
         (fun d a =>
            shared Scenario.booted d ->
            forall ops fuel',
              clear_free ops = true ->
              resolve (S fuel') d (run ops (snd (resolve 3 "service" Scenario.booted)))
              = (Returned a, run ops (snd (resolve 3 "service" Scenario.booted))))
         ["logger"] args.
Proof.
  apply (injected_singletons_are_shared 2 "service"
           {| sc_implementation := ImplClass Scenario.Service; sc_singleton := true;
              sc_dependencies := ["logger"]; sc_factory := false |}
           Scenario.booted (VObject 2) (snd (resolve 3 "service" Scenario.booted)));
    reflexivity.
Defined.

(** ** Services and factories are two name spaces *)

(** X10. [has(name)] answers for both tables, [resolve] and
    [resolveFactory] each look in one.  After [registerFactory(name)] on a
    name that is neither cached nor described, [has(name)] is true and
    [resolve(name)] throws ServiceNotRegistered; after [register(name)] on a
    name without factory entry, [has(name)] is true and
    [resolveFactory(name)] throws FactoryNotRegistered. *)
Theorem has_does_not_tell_which_table name s :
  (missing s name ->
   forall factory deps fuel,
     has name (snd (registerFactory name factory deps s))
     = (Returned true, snd (registerFactory name factory deps s))
     /\ resolve (S fuel) name (snd (registerFactory name factory deps s))
        = (Thrown (ServiceNotRegistered name),
           snd (registerFactory name factory deps s)))
  /\ (JsMap.get (factories (container s)) name = None ->
      forall impl o fuel,
        has name (snd (register name impl o s))
        = (Returned true, snd (register name impl o s))
        /\ resolveFactory fuel name (snd (register name impl o s))
           = (Thrown (FactoryNotRegistered name), snd (register name impl o s))).
Proof.
  split.
  - intros Hm factory deps fuel. split.
    + unfold has. simpl. unfold JsMap.has at 2.
      rewrite JsMapFacts.get_set_eq. now rewrite orb_true_r.
    + now apply resolve_missing.
  - intros Hf impl o fuel. split.
    + unfold has. simpl. unfold JsMap.has at 1.
      now rewrite JsMapFacts.get_set_eq.
    + unfold resolveFactory. simpl. now rewrite Hf.
Qed.

Lemma has_does_not_tell_which_table_witness :
  (has "report" (snd (registerFactory "report" Scenario.Handler [] Scenario.booted))
   = (Returned true, snd (registerFactory "report" Scenario.Handler [] Scenario.booted))
   /\ resolve 1 "report"
        (snd (registerFactory "report" Scenario.Handler [] Scenario.booted))
      = (Thrown (ServiceNotRegistered "report"),
         snd (registerFactory "report" Scenario.Handler [] Scenario.booted)))
  /\ (has "plain" (snd (register "plain" (ImplObject VUndefined) no_options initial))
      = (Returned true, snd (register "plain" (ImplObject VUndefined) no_options initial))
      /\ resolveFactory 1 "plain"
           (snd (register "plain" (ImplObject VUndefined) no_options initial))
         = (Thrown (FactoryNotRegistered "plain"),
            snd (register "plain" (ImplObject VUndefined) no_options initial))).
Proof.
  split.
  - apply (proj1 (has_does_not_tell_which_table "report" Scenario.booted)).
    split; reflexivity.
  - apply (proj2 (has_does_not_tell_which_table "plain" initial)).
    reflexivity.
Defined.

(** * The bootstrap of [registerServices.js] *)

Lemma js_new_eq f args s :
  js_new f args s
  = (Returned (result_of (ImplClass f) args (next_loc s)),
     {| container := container s;
        next_loc := heap_after (ImplClass f) args (next_loc s);
        journal := journal s
                   ++ [New f args (result_of (ImplClass f) args (next_loc s))] |}).
Proof.
  unfold js_new, invoke, allocate, record, result_of, heap_after. simpl.
  now destruct (new_yield (f args)).
Qed.

Lemma resolve_singleton_object fuel name s cfg v :
  JsMap.get (singletons (container s)) name = None ->
  JsMap.get (services (container s)) name = Some cfg ->
  sc_implementation cfg = ImplObject v ->
  sc_singleton cfg = true ->
  resolve (S fuel) name s = (Returned v, snd (cache_singleton name v s)).
Proof.
  intros Hu Hcfg Hi Hs. rewrite (resolve_construct _ _ _ _ Hu Hcfg), Hs.
  unfold createInstance. now rewrite Hi.
Qed.

Lemma resolve_singleton_class fuel name s cfg ctor args s1 :
  JsMap.get (singletons (container s)) name = None ->
  JsMap.get (services (container s)) name = Some cfg ->
  sc_implementation cfg = ImplClass ctor ->
  sc_singleton cfg = true ->
  resolved_in_order (resolve fuel) (sc_dependencies cfg) s args s1 ->
  resolve (S fuel) name s
  = (Returned (result_of (ImplClass ctor) args (next_loc s1)),
     {| container :=
          {| services := services (container s1);
             singletons :=
               JsMap.set (singletons (container s1)) name
                 (result_of (ImplClass ctor) args (next_loc s1));
             factories := factories (container s1) |};
        next_loc := heap_after (ImplClass ctor) args (next_loc s1);
        journal :=
          journal s1
          ++ [New ctor args (result_of (ImplClass ctor) args (next_loc s1))] |}).
Proof.
  intros Hu Hcfg Hi Hs Hrio. rewrite (resolve_construct _ _ _ _ Hu Hcfg), Hs.
  unfold createInstance. rewrite Hi. apply map_resolve_in_order in Hrio.
  unfold bind at 1. unfold bind at 1. rewrite Hrio. rewrite js_new_eq.
  reflexivity.
Qed.

Ltac step_resolve :=
  first
    [ apply resolve_cached; reflexivity
    | eapply resolve_singleton_object; reflexivity
    | eapply resolve_singleton_class;
      [ reflexivity | reflexivity | reflexivity | reflexivity | step_deps ] ]
with step_deps :=
  first
    [ apply rio_nil
    | eapply rio_cons; [ step_resolve | step_deps ] ].

Lemma set_same {V : Type} (m : JsMap.t V) k v :
  JsMap.get m k = Some v -> JsMap.set m k v = m.
Proof.
  induction m as [|[k' v'] m IH]; simpl; [discriminate|].
  destruct (String.eqb k' k) eqn:E.
  - intros H. now inv H.
  - intros H. now rewrite IH.
Qed.

(** X11. [registerServices()], from any state of the container, returns
    and stores for each of its seven names a singleton-flagged descriptor
    with the dependencies the file lists; it touches neither the singleton
    cache, the factory table, the heap nor the journal, so it constructs
    nothing.  On a newly constructed container [getRegisteredServices()]
    then lists the seven names in registration order.  Calling
    [registerServices()] a second time changes nothing. *)
Theorem registerServices_registers m s :
  fst (registerServices m s) = Returned tt
  /\ map (fun name => JsMap.get (services (container (snd (registerServices m s)))) name)
         bootstrap_names
     = map (fun entry : implementation * list string =>
              Some {| sc_implementation := fst entry; sc_singleton := true;
                      sc_dependencies := snd entry; sc_factory := false |})
         [ (ImplObject (VObject (config m)), []);
           (ImplClass (LoggerService m), ["config"]);
           (ImplClass (DatabaseService m), ["config"; "logger"]);
           (ImplClass (EmailService m), ["config"; "logger"]);
           (ImplClass (StudentRepository m), ["databaseService"; "logger"]);
           (ImplClass (StudentService m),
            ["studentRepository"; "emailService"; "logger"]);
           (ImplClass (StudentController m), ["studentService"; "logger"]) ]
  /\ singletons (container (snd (registerServices m s))) = singletons (container s)
  /\ factories (container (snd (registerServices m s))) = factories (container s)
  /\ next_loc (snd (registerServices m s)) = next_loc s
  /\ journal (snd (registerServices m s)) = journal s
  /\ (fresh_container s ->
      getRegisteredServices (snd (registerServices m s))
      = (Returned bootstrap_names, snd (registerServices m s)))
  /\ snd (registerServices m (snd (registerServices m s)))
     = snd (registerServices m s).
Proof.
  assert (Hget :
    map (fun name => JsMap.get (services (container (snd (registerServices m s)))) name)
        bootstrap_names
    = map (fun entry : implementation * list string =>
             Some {| sc_implementation := fst entry; sc_singleton := true;
                     sc_dependencies := snd entry; sc_factory := false |})
        [ (ImplObject (VObject (config m)), []);
          (ImplClass (LoggerService m), ["config"]);
          (ImplClass (DatabaseService m), ["config"; "logger"]);
          (ImplClass (EmailService m), ["config"; "logger"]);
          (ImplClass (StudentRepository m), ["databaseService"; "logger"]);
          (ImplClass (StudentService m),
           ["studentRepository"; "emailService"; "logger"]);
          (ImplClass (StudentController m), ["studentService"; "logger"]) ]).
  { simpl. rewrite !JsMapFacts.get_set. reflexivity. }
  repeat split; auto.
  - intros Hnew. destruct s as [c h j]. unfold fresh_container in Hnew.
    simpl in Hnew. subst c. reflexivity.
  - simpl in Hget. inversion Hget as [[H1 H2 H3 H4 H5 H6 H7]]. clear Hget.
    destruct s as [[sv sg fa] h j]. simpl in *.
    unfold with_container. simpl. f_equal. f_equal.
    set (S7 := JsMap.set _ "studentController" _) in *.
    rewrite (set_same S7 "config") by (subst S7; rewrite !JsMapFacts.get_set; reflexivity).
    rewrite (set_same S7 "logger") by (subst S7; rewrite !JsMapFacts.get_set; reflexivity).
    rewrite (set_same S7 "databaseService")
      by (subst S7; rewrite !JsMapFacts.get_set; reflexivity).
    rewrite (set_same S7 "emailService")
      by (subst S7; rewrite !JsMapFacts.get_set; reflexivity).
    rewrite (set_same S7 "studentRepository")
      by (subst S7; rewrite !JsMapFacts.get_set; reflexivity).
    rewrite (set_same S7 "studentService")
      by (subst S7; rewrite !JsMapFacts.get_set; reflexivity).
    rewrite (set_same S7 "studentController")
      by (subst S7; rewrite !JsMapFacts.get_set; reflexivity).
    reflexivity.
Qed.

Lemma registerServices_registers_witness :
  getRegisteredServices (snd (registerServices Application.modules Application.start))
  = (Returned bootstrap_names,
     snd (registerServices Application.modules Application.start)).
Proof.
  apply (proj1 (proj2 (proj2 (proj2 (proj2 (proj2 (proj2
           (registerServices_registers Application.modules Application.start)))))))).
  reflexivity.
Defined.

(** X12. After [registerServices()] on a newly constructed container, and
    for classes whose constructors return (whichever object each hands
    back), [getService(name)] returns a value for each of the seven
    registered names as soon as six nested calls are allowed: no dependency
    it looks up is unregistered and the graph has no cycle.  For every other
    name (for instance "loggerService") it throws ServiceNotRegistered. *)
Theorem getService_after_bootstrap m s0 name :
  fresh_container s0 ->
  (In name bootstrap_names ->
   forall k, exists v s',
     getService (6 + k) name (snd (registerServices m s0)) = (Returned v, s'))
  /\ (~ In name bootstrap_names ->
      forall fuel,
        getService (S fuel) name (snd (registerServices m s0))
        = (Thrown (ServiceNotRegistered name), snd (registerServices m s0))).
Proof.
  intros Hnew. destruct s0 as [c h j]. unfold fresh_container in Hnew.
  simpl in Hnew. subst c. split.
  - intros Hin k. unfold getService. simpl Nat.add.
    simpl in Hin.
    destruct Hin as [<-|[<-|[<-|[<-|[<-|[<-|[<-|[]]]]]]]];
      eexists; eexists; step_resolve.
  - intros Hout fuel. unfold getService. apply resolve_missing. split.
    + reflexivity.
    + destruct (JsMap.get _ name) as [cfg|] eqn:E; auto.
      exfalso. apply Hout.
      apply (JsMapFacts.get_Some_keys _ _ _ E).
Qed.

Lemma getService_after_bootstrap_witness :
  (forall k, exists v s',
      getService (6 + k) "studentService"
        (snd (registerServices Application.modules Application.start))
      = (Returned v, s'))
  /\ (forall fuel,
        getService (S fuel) "loggerService"
          (snd (registerServices Application.modules Application.start))
        = (Thrown (ServiceNotRegistered "loggerService"),
           snd (registerServices Application.modules Application.start))).
Proof.
  split.
  - apply (proj1 (getService_after_bootstrap Application.modules Application.start
                    "studentService" eq_refl)).
    simpl. tauto.
  - apply (proj2 (getService_after_bootstrap Application.modules Application.start
                    "loggerService" eq_refl)).
    simpl. intros H. repeat (destruct H as [H|H]; [discriminate|]). exact H.
Defined.

(** X13. The wiring of the application.  After [registerServices()] on a
    newly constructed container, [getService('studentController')]
    constructs each of the six classes exactly once, in the order logger,
    database service, student repository, email service, student service,
    student controller; each constructor receives the instances of its
    declared dependencies in the order of its parameters, and the one logger
    instance goes to all five other constructors.  The instances are then
    the cache entries of their names. *)
Theorem studentController_wiring m s0 k :
  fresh_container s0 ->
  exists logger db repo email svc ctl s',
    getService (6 + k) "studentController" (snd (registerServices m s0))
    = (Returned ctl, s')
    /\ journal s'
       = journal s0
         ++ [ New (LoggerService m) [VObject (config m)] logger;
              New (DatabaseService m) [VObject (config m); logger] db;
              New (StudentRepository m) [db; logger] repo;
              New (EmailService m) [VObject (config m); logger] email;
              New (StudentService m) [repo; email; logger] svc;
              New (StudentController m) [svc; logger] ctl ]
    /\ map (fun name => JsMap.get (singletons (container s')) name) bootstrap_names
       = [ Some (VObject (config m)); Some logger; Some db; Some email;
           Some repo; Some svc; Some ctl ].
Proof.
  intros Hnew. destruct s0 as [c h j]. unfold fresh_container in Hnew.
  simpl in Hnew. subst c.
  do 7 eexists. split; [|split].
  - unfold getService. simpl Nat.add. step_resolve.
  - simpl. rewrite <- !app_assoc. reflexivity.
  - reflexivity.
Qed.

Lemma studentController_wiring_witness :
  exists logger db repo email svc ctl s',
    getService 6 "studentController"
      (snd (registerServices Application.modules Application.start))
    = (Returned ctl, s')
    /\ journal s'
       = journal Application.start
         ++ [ New (LoggerService Application.modules)
                [VObject (config Application.modules)] logger;
              New (DatabaseService Application.modules)
                [VObject (config Application.modules); logger] db;
              New (StudentRepository Application.modules) [db; logger] repo;
              New (EmailService Application.modules)
                [VObject (config Application.modules); logger] email;
              New (StudentService Application.modules) [repo; email; logger] svc;
              New (StudentController Application.modules) [svc; logger] ctl ]
    /\ map (fun name => JsMap.get (singletons (container s')) name) bootstrap_names
       = [ Some (VObject (config Application.modules)); Some logger; Some db;
           Some email; Some repo; Some svc; Some ctl ].
Proof.
  exact (studentController_wiring Application.modules Application.start 0 eq_refl).
Defined.

(** * The feature flags and the logger *)

(** X14. Whatever the process environment holds, the configuration has
    email verification, CSRF protection and CORS credentials switched on;
    rate limiting, caching and database SSL are on exactly when their
    variable is the string "true". *)
Theorem flags_of_every_environment (env : environment) :
  emailVerification (load_features env) = true
  /\ csrfProtection (load_features env) = true
  /\ load_cors_credentials env = true
  /\ (rateLimiting (load_features env) = true
      <-> env "FEATURE_RATE_LIMITING" = Some "true")
  /\ (caching (load_features env) = true <-> env "FEATURE_CACHING" = Some "true")
  /\ (load_database_ssl env = true <-> env "DB_SSL" = Some "true").
Proof.
  assert (H : forall variable,
            is_true env variable || false = true <-> env variable = Some "true").
  { intros variable. unfold is_true. rewrite orb_false_r.
    destruct (env variable) as [s|]; [|split; discriminate].
    rewrite String.eqb_eq. split; [now intros -> | now intros [= ->]]. }
  unfold load_features, load_cors_credentials, load_database_ssl. simpl.
  rewrite !orb_true_r. repeat split; apply H.
Qed.

(** X15. The logger built from the server environment logs a message of
    level [level] exactly when [level] is "warn" or "error", or the
    environment is not "production" and [level] is "debug" or "info"; a
    level of any other name is never logged.  The server environment is
    "production" exactly when NODE_ENV is that string. *)
Theorem logger_threshold (env : environment) (level : string) :
  (shouldLog (load_server_environment env) level = true
   <-> level = "warn" \/ level = "error"
       \/ (env "NODE_ENV" <> Some "production"
           /\ (level = "debug" \/ level = "info")))
  /\ (load_server_environment env = "production"
      <-> env "NODE_ENV" = Some "production").
Proof.
  assert (Hprod : load_server_environment env = "production"
                  <-> env "NODE_ENV" = Some "production").
  { unfold load_server_environment, string_or.
    destruct (env "NODE_ENV") as [s|]; [|split; discriminate].
    destruct (String.eqb s "") eqn:E.
    - apply String.eqb_eq in E. subst s. split; discriminate.
    - split; [now intros -> | now intros [= ->]]. }
  split; auto.
  unfold shouldLog, logLevel, levels.
  destruct (String.eqb (load_server_environment env) "production") eqn:P.
  - apply String.eqb_eq in P. apply Hprod in P.
    destruct (String.eqb level "debug") eqn:E0;
      [apply String.eqb_eq in E0; subst; simpl; split;
       [discriminate | intros [H|[H|[H _]]]; congruence]|].
    destruct (String.eqb level "info") eqn:E1;
      [apply String.eqb_eq in E1; subst; simpl; split;
       [discriminate | intros [H|[H|[H _]]]; congruence]|].
    destruct (String.eqb level "warn") eqn:E2;
      [apply String.eqb_eq in E2; subst; simpl; tauto|].
    destruct (String.eqb level "error") eqn:E3;
      [apply String.eqb_eq in E3; subst; simpl; tauto|].
    apply String.eqb_neq in E0, E1, E2, E3. simpl.
    split; [discriminate | intros [H|[H|[_ [H|H]]]]; congruence].
  - apply String.eqb_neq in P.
    assert (Hn : env "NODE_ENV" <> Some "production") by (intros H; now apply Hprod in H).
    destruct (String.eqb level "debug") eqn:E0;
      [apply String.eqb_eq in E0; subst; simpl; tauto|].
    destruct (String.eqb level "info") eqn:E1;
      [apply String.eqb_eq in E1; subst; simpl; tauto|].
    destruct (String.eqb level "warn") eqn:E2;
      [apply String.eqb_eq in E2; subst; simpl; tauto|].
    destruct (String.eqb level "error") eqn:E3;
      [apply String.eqb_eq in E3; subst; simpl; tauto|].
    apply String.eqb_neq in E0, E1, E2, E3. simpl.
    split; [discriminate | intros [H|[H|[_ [H|H]]]]; congruence].
Qed.
